(** * The protected API gateway (gateway/index.js)

    A shallow embedding of the gateway process: the rate limiter and the
    metrics middleware, the route handlers, the shared circuit breaker, and
    the single pooled RabbitMQ connection with its reconnect path.

    The process is a Node.js event loop.  Every callback runs to its next
    [await] without interleaving, so the embedding is a transition function
    [step] on an explicit state: one event per callback the loop can run
    (a request arriving, a promise of the bus or of a downstream service
    settling, a timer firing, a socket closing).  The clock reading
    [Date.now()] taken by a callback is the [now] argument of its step. *)

From stdpp Require Import gmap strings list fin_maps pretty.

Set Warnings "-register-all".
Local Open Scope Z_scope.

(** ** JSON values, as far as the handlers inspect them *)

Inductive json : Type :=
  | JUndefined
  | JNull
  | JBool (b : bool)
  | JNum (z : Z)
  | JStr (s : string)
  | JArr (items : list json)
  | JObj (fields : list (string * json)).

Fixpoint assoc (k : string) (fields : list (string * json)) : json :=
  match fields with
  | [] => JUndefined
  | (k', v) :: rest => if String.eqb k k' then v else assoc k rest
  end.

(** [v.k]: reading a property of [null] or [undefined] raises a TypeError
    ([None]); any other value answers, [undefined] when it has no such
    property. *)
Definition get_prop (k : string) (v : json) : option json :=
  match v with
  | JUndefined | JNull => None
  | JObj fields => Some (assoc k fields)
  | _ => Some JUndefined
  end.

(** JavaScript truthiness, as used by [!response.data.fallback]. *)
Definition truthy (v : json) : bool :=
  match v with
  | JUndefined | JNull => false
  | JBool b => b
  | JNum z => negb (z =? 0)
  | JStr s => negb (String.eqb s "")
  | JArr _ | JObj _ => true
  end.

Record response : Type := mkResponse { status : Z; body : json }.

(** ** Rate limiter: [rateLimit({ windowMs, limit, message })] *)

Module Limiter.

Definition windowMs : Z := 1 * 60 * 1000.
Definition limit : Z := 100.
Definition message : json :=
  JObj [("error", JStr "Too many requests, please try again later.")].

Record RateWindow : Type := mkWindow { windowStart : Z; count : Z }.

Inductive decision : Type := Allow | Reject.

(** Modelled from the spec: the body of the [express-rate-limit]
    middleware is not part of the repository; only its configuration is.
    Section 4.1 describes a fixed-window counter keyed by client, created
    on the first request of a key and reset once the window has elapsed;
    the count never goes above the limit. *)
Definition admit_request (now : Z) (key : string)
    (store : gmap string RateWindow)
  : decision * gmap string RateWindow :=
  match store !! key with
  | Some w =>
      if now - windowStart w <? windowMs then
        if count w <? limit then
          (Allow, <[key := mkWindow (windowStart w) (count w + 1)]> store)
        else (Reject, store)
      else (Allow, <[key := mkWindow now 1]> store)
  | None => (Allow, <[key := mkWindow now 1]> store)
  end.

(** Modelled from the spec: the answer the middleware gives to a rejected
    request (section 6): status 429 with the configured [message]. *)
Definition rejection : response := mkResponse 429 message.

End Limiter.

(** ** Circuit breaker: [new CircuitBreaker(protectedRequest, options)] *)

Module Breaker.

Record options : Type := mkOptions {
  timeout : Z;
  errorThresholdPercentage : Z;
  resetTimeout : Z;
  rollingCount : nat
}.

Inductive phase : Type := CLOSED | OPEN | HALF_OPEN.

(** The rolling history holds the most recent outcomes, newest first;
    [true] records a failure. *)
Record t : Type := mkBreaker {
  state : phase;
  history : list bool;
  openedAt : Z;
  trialInFlight : bool
}.

Definition initial : t := mkBreaker CLOSED [] 0 false.

Definition failures (h : list bool) : Z :=
  Z.of_nat (length (filter (λ f, f = true) h)).

Definition push (opts : options) (failed : bool) (h : list bool) : list bool :=
  take (rollingCount opts) (failed :: h).

(** The failure ratio over the window has reached the threshold. *)
Definition tripped (opts : options) (h : list bool) : bool :=
  (0 <? Z.of_nat (length h))
  && (errorThresholdPercentage opts * Z.of_nat (length h) <=? 100 * failures h).

Inductive admission : Type := Invoke | ShortCircuit.

(** Modelled from the spec: the breaker class comes from the [opossum]
    package, which is not part of the repository.  Section 4.2: CLOSED lets
    every call through; OPEN short-circuits until [resetTimeout] has
    elapsed since [openedAt], and the first call after that is admitted as
    the HALF_OPEN trial; HALF_OPEN short-circuits while the trial is
    outstanding. *)
Definition permit (opts : options) (now : Z) (b : t) : admission * t :=
  match state b with
  | CLOSED => (Invoke, b)
  | OPEN =>
      if resetTimeout opts <=? now - openedAt b then
        (Invoke, mkBreaker HALF_OPEN (history b) (openedAt b) true)
      else (ShortCircuit, b)
  | HALF_OPEN =>
      if trialInFlight b then (ShortCircuit, b)
      else (Invoke, mkBreaker HALF_OPEN (history b) (openedAt b) true)
  end.

(** Modelled from the spec: what an attempted call does to the breaker
    when it completes (section 4.2).  In CLOSED the outcome enters the
    rolling history and the breaker opens once the ratio reaches the
    threshold; the trial of HALF_OPEN closes the breaker (history reset) or
    reopens it ([openedAt] reset to now); a call that completes while the
    breaker is OPEN only enters the history. *)
Definition record (opts : options) (now : Z) (failed : bool) (b : t) : t :=
  match state b with
  | CLOSED =>
      let h := push opts failed (history b) in
      if tripped opts h then mkBreaker OPEN h now false
      else mkBreaker CLOSED h (openedAt b) false
  | HALF_OPEN =>
      if failed then mkBreaker OPEN (push opts failed (history b)) now false
      else mkBreaker CLOSED [] (openedAt b) false
  | OPEN =>
      mkBreaker OPEN (push opts failed (history b)) (openedAt b) (trialInFlight b)
  end.

(** The outcome of the wrapped function, had it been called: how long it
    takes and what it yields ([None] when it throws). *)
Record call (A : Type) : Type := mkCall { duration : Z; yielded : option A }.
Arguments mkCall {A} _ _.
Arguments duration {A} _.
Arguments yielded {A} _.

(** A call that outlasts [timeout] counts as a failure whatever it yields. *)
Definition failed {A} (opts : options) (c : call A) : bool :=
  match yielded c with
  | Some _ => timeout opts <? duration c
  | None => true
  end.

(** A call, given with its start time, whose wrapped function fails. *)
Definition failing {A} (opts : options) (c : Z * call A) : Prop :=
  failed opts c.2 = true.

Record outcome (A : Type) : Type := mkOutcome {
  result : option A;      (* [None]: the failure propagates *)
  invoked : bool;         (* was the wrapped function called *)
  after : t
}.
Arguments mkOutcome {A} _ _ _.
Arguments result {A} _.
Arguments invoked {A} _.
Arguments after {A} _.

(** Modelled from the spec: [execute(target, fn, fallback)] of section 4.2
    for one call run to completion: the function's result when permitted
    and successful, the fallback's when short-circuited or when the call
    fails or times out and a fallback is supplied, else the failure. *)
Definition execute {A} (opts : options) (now : Z) (fn : call A)
    (fallback : option A) (b : t) : outcome A :=
  match permit opts now b with
  | (ShortCircuit, b') => mkOutcome fallback false b'
  | (Invoke, b') =>
      let b'' := record opts (now + Z.min (duration fn) (timeout opts))
                   (failed opts fn) b' in
      if failed opts fn then mkOutcome fallback true b''
      else mkOutcome (yielded fn) true b''
  end.

(** Consecutive calls, each run to completion before the next starts; the
    list gives the start time and the behaviour of the wrapped function. *)
Fixpoint run {A} (opts : options) (calls : list (Z * call A))
    (fallback : option A) (b : t) : t :=
  match calls with
  | [] => b
  | (now, fn) :: rest =>
      run opts rest fallback (after (execute opts now fn fallback b))
  end.

End Breaker.

(** ** The pooled bus connection: [rabbitChannel], [connectToRabbitMQ],
       [publishToQueue] *)

Module Publisher.

Definition retryDelay : Z := 5000.

Inductive error : Type :=
  | ChannelNotReady      (* Error('RabbitMQ channel is not ready') *)
  | AssertQueueFailed    (* [assertQueue] rejected *)
  | ChannelVanished.     (* TypeError: [rabbitChannel] is null at [sendToQueue] *)

(** Connections are numbered in the order [amqp.connect] yields them; a
    channel is named by the connection it was created on.  The fields up
    to [asserting] are the variables, listeners, timers and suspended
    continuations of the process; [live] is the broker's side, the
    connections that are open; [sent] and [rejections] log what the
    publishes came to. *)
Record state : Type := mkState {
  rabbitChannel : option nat;
  connecting : nat;            (* suspended at [await amqp.connect] *)
  opening : list nat;          (* suspended at [await createChannel] *)
  timers : list Z;             (* [setTimeout(connectToRabbitMQ, 5000)] *)
  closeHandlers : list nat;    (* [connection.on('close', ...)] *)
  asserting : list (string * json);  (* suspended at [await assertQueue] *)
  live : list nat;
  nextConnection : nat;
  sent : list (nat * string * json);   (* [sendToQueue] calls, newest first *)
  rejections : list error      (* rejected promises of [publishToQueue] *)
}.

(** [connectToRabbitMQ()] up to its first [await]: [amqp.connect] is
    started.  What the function does next is in [step]: the continuation on
    the connection ([ConnectResolved], then [ChannelResolved]), its [catch]
    block ([ConnectRejected], [ChannelRejected]) and the close listener
    ([ConnectionClosed]). *)
Definition connectToRabbitMQ (s : state) : state :=
  mkState (rabbitChannel s) (S (connecting s)) (opening s) (timers s)
    (closeHandlers s) (asserting s) (live s) (nextConnection s) (sent s)
    (rejections s).

(** The module has just been loaded: [rabbitChannel = null] and the call
    [connectToRabbitMQ()] of line 56 has been made. *)
Definition initial : state :=
  connectToRabbitMQ (mkState None 0 [] [] [] [] [] 0 [] []).

Definition with_channel (ch : option nat) (s : state) : state :=
  mkState ch (connecting s) (opening s) (timers s) (closeHandlers s)
    (asserting s) (live s) (nextConnection s) (sent s) (rejections s).

Definition schedule (now : Z) (s : state) : state :=
  mkState (rabbitChannel s) (connecting s) (opening s)
    (timers s ++ [now + retryDelay]) (closeHandlers s)
    (asserting s) (live s) (nextConnection s) (sent s) (rejections s).

Definition reject (e : error) (s : state) : state :=
  mkState (rabbitChannel s) (connecting s) (opening s) (timers s)
    (closeHandlers s) (asserting s) (live s) (nextConnection s) (sent s)
    (e :: rejections s).

Definition remove (c : nat) (l : list nat) : list nat :=
  filter (λ x, x ≠ c) l.

Inductive event : Type :=
  | ConnectResolved              (* [amqp.connect] yields a connection *)
  | ConnectRejected
  | ChannelResolved (c : nat)    (* [createChannel] on [c] yields a channel *)
  | ChannelRejected (c : nat)
  | ConnectionClosed (c : nat)   (* the socket of [c] closes *)
  | TimerFired
  | AssertResolved (i : nat)     (* [assertQueue] of the i-th pending publish *)
  | AssertRejected (i : nat).

(** One callback of the event loop.  An event that cannot occur in the
    state (no such promise, timer or connection) leaves it unchanged. *)
Definition step (now : Z) (e : event) (s : state) : state :=
  match e with
  | ConnectResolved =>
      match connecting s with
      | O => s
      | S n =>
          let c := nextConnection s in
          mkState (rabbitChannel s) n (c :: opening s) (timers s)
            (closeHandlers s) (asserting s) (c :: live s) (S c) (sent s)
            (rejections s)
      end
  | ConnectRejected =>
      match connecting s with
      | O => s
      | S n =>
          schedule now
            (mkState (rabbitChannel s) n (opening s) (timers s)
               (closeHandlers s) (asserting s) (live s) (nextConnection s)
               (sent s) (rejections s))
      end
  | ChannelResolved c =>
      if bool_decide (c ∈ opening s) && bool_decide (c ∈ live s) then
        mkState (Some c) (connecting s) (remove c (opening s)) (timers s)
          (c :: closeHandlers s) (asserting s) (live s) (nextConnection s)
          (sent s) (rejections s)
      else s
  | ChannelRejected c =>
      if bool_decide (c ∈ opening s) then
        schedule now
          (mkState (rabbitChannel s) (connecting s) (remove c (opening s))
             (timers s) (closeHandlers s) (asserting s) (live s)
             (nextConnection s) (sent s) (rejections s))
      else s
  | ConnectionClosed c =>
      if bool_decide (c ∈ live s) then
        let s' :=
          mkState (rabbitChannel s) (connecting s) (opening s) (timers s)
            (remove c (closeHandlers s)) (asserting s) (remove c (live s))
            (nextConnection s) (sent s) (rejections s) in
        if bool_decide (c ∈ closeHandlers s) then
          schedule now (with_channel None s')
        else s'
      else s
  | TimerFired =>
      match timers s with
      | due :: rest =>
          if due <=? now then
            connectToRabbitMQ
              (mkState (rabbitChannel s) (connecting s) (opening s) rest
                 (closeHandlers s) (asserting s) (live s) (nextConnection s)
                 (sent s) (rejections s))
          else s
      | [] => s
      end
  | AssertResolved i =>
      match asserting s !! i with
      | Some (queue, message) =>
          let s' :=
            mkState (rabbitChannel s) (connecting s) (opening s) (timers s)
              (closeHandlers s) (delete i (asserting s)) (live s)
              (nextConnection s) (sent s) (rejections s) in
          match rabbitChannel s with
          | Some ch =>
              mkState (rabbitChannel s') (connecting s') (opening s')
                (timers s') (closeHandlers s') (asserting s') (live s')
                (nextConnection s') ((ch, queue, message) :: sent s')
                (rejections s')
          | None => reject ChannelVanished s'
          end
      | None => s
      end
  | AssertRejected i =>
      match asserting s !! i with
      | Some _ =>
          reject AssertQueueFailed
            (mkState (rabbitChannel s) (connecting s) (opening s) (timers s)
               (closeHandlers s) (delete i (asserting s)) (live s)
               (nextConnection s) (sent s) (rejections s))
      | None => s
      end
  end.

(** [publishToQueue(queue, message)] up to its first [await]: either the
    promise is already rejected, or the call is suspended on
    [assertQueue]. *)
Definition publishToQueue (queue : string) (message : json) (s : state)
  : option error * state :=
  match rabbitChannel s with
  | None => (Some ChannelNotReady, s)
  | Some _ =>
      (None,
       mkState (rabbitChannel s) (connecting s) (opening s) (timers s)
         (closeHandlers s) (asserting s ++ [(queue, message)]) (live s)
         (nextConnection s) (sent s) (rejections s))
  end.

Fixpoint run (trace : list (Z * event)) (s : state) : state :=
  match trace with
  | [] => s
  | (now, e) :: rest => run rest (step now e s)
  end.

(** The part of the state that [connectToRabbitMQ] and its callbacks read
    and write, with the broker's side of it. *)
Definition connection_view (s : state)
  : option nat * nat * list nat * list Z * list nat * list nat * nat :=
  (rabbitChannel s, connecting s, opening s, timers s, closeHandlers s,
   live s, nextConnection s).

(** What stands for the one connection the gateway means to have: attempts
    under way, retries scheduled, and connections it listens to. *)
Definition tokens (s : state) : nat :=
  (connecting s + length (opening s) + length (timers s)
   + length (closeHandlers s))%nat.

(** Every open connection is one the gateway still holds: it is creating
    the channel on it, or it listens to its close. *)
Definition attached (s : state) : Prop :=
  NoDup (live s)
  ∧ (∀ c, c ∈ live s → (c < nextConnection s)%nat)
  ∧ (∀ c, c ∈ live s → c ∈ opening s ∨ c ∈ closeHandlers s).

(** Along the trace [createChannel] is never rejected on a connection that
    is still open. *)
Fixpoint channel_failures_close (trace : list (Z * event)) (s : state) : Prop :=
  match trace with
  | [] => True
  | (now, e) :: rest =>
      match e with
      | ChannelRejected c => c ∉ live s
      | _ => True
      end
      ∧ channel_failures_close rest (step now e s)
  end.

End Publisher.

(** ** The gateway: middleware chain and route handlers *)

Module Gateway.

Definition AUTH_SERVICE_URL : string := "http://auth-service:3001".
Definition ORDER_SERVICE_URL : string := "http://order-service:3002".
Definition USER_SERVICE_URL : string := "http://user-service:3003".

(** Modelled from the spec: section 3 bounds the rolling history "by count
    or time" without a figure and the options in the code set none; the
    last ten outcomes are kept. *)
Definition rollingCount : nat := 10.

(** [circuitBreakerOptions]: [timeout], [errorThresholdPercentage] and
    [resetTimeout] as the code sets them. *)
Definition circuitBreakerOptions : Breaker.options :=
  Breaker.mkOptions 3000 50 10000 rollingCount.

(** The value the registered fallback returns, [{ data: ... }]; the
    handlers only read its [data]. *)
Definition fallbackData : json :=
  JObj [("error", JStr "Service temporarily unavailable");
        ("fallback", JBool true)].

Definition serviceUnavailable : response :=
  mkResponse 503 (JObj [("error", JStr "Service Unavailable")]).

Definition healthBody : json :=
  JObj [("status", JStr "ok"); ("protected", JBool true)].

(** The handler the router selects for the method and path of a request;
    [NoRoute] when none matches. *)
Inductive route : Type :=
  | AuthLogin      (* POST /api/auth/login *)
  | CreateOrder    (* POST /api/orders *)
  | ListUsers      (* GET /api/users *)
  | Metrics        (* GET /metrics *)
  | Health         (* GET /health *)
  | NoRoute.

(** The routes that go through [breaker.fire]. *)
Definition proxied (r : route) : bool :=
  match r with
  | AuthLogin | CreateOrder | ListUsers => true
  | _ => false
  end.

Record request : Type := mkRequest {
  ip : string;
  target : route;
  payload : json      (* req.body *)
}.

Record metrics_t : Type := mkMetrics {
  totalRequests : Z;
  activeConnections : Z;
  failedRequests : Z;
  startTime : Z
}.

(** The [axios] call a downstream request comes to. *)
Inductive http_call : Type :=
  | AxiosPost (url : string) (data : json)
  | AxiosGet (url : string).

Definition protectedRequest (method url : string) (data : json) : http_call :=
  if String.eqb method "post" then AxiosPost url data else AxiosGet url.

Inductive suspended : Type :=
  | AwaitingFire (r : route) (started : Z)  (* at [await breaker.fire(...)] *)
  | AwaitingFinish.                         (* answered, 'finish' not yet emitted *)

Record state : Type := mkState {
  bus : Publisher.state;
  metrics : metrics_t;
  breaker : Breaker.t;                       (* the one [breaker] object *)
  store : gmap string Limiter.RateWindow;
  inflight : gmap nat suspended;
  nextRequest : nat;
  responses : gmap nat response;             (* what each request was answered *)
  downstreamCalls : list (nat * http_call)   (* [protectedRequest] calls, newest first *)
}.

Definition initial : state :=
  mkState Publisher.initial (mkMetrics 0 0 0 0) Breaker.initial ∅ ∅ 0 ∅ [].

Definition with_bus (p : Publisher.state) (s : state) : state :=
  mkState p (metrics s) (breaker s) (store s) (inflight s) (nextRequest s)
    (responses s) (downstreamCalls s).

Definition with_breaker (b : Breaker.t) (s : state) : state :=
  mkState (bus s) (metrics s) b (store s) (inflight s) (nextRequest s)
    (responses s) (downstreamCalls s).

(** [res.status(code).json(body)] for request [rid]. *)
Definition reply (rid : nat) (r : response) (s : state) : state :=
  mkState (bus s) (metrics s) (breaker s) (store s)
    (<[rid := AwaitingFinish]> (inflight s)) (nextRequest s)
    (<[rid := r]> (responses s)) (downstreamCalls s).

(** The [catch] block of a proxied route. *)
Definition catch (rid : nat) (s : state) : state :=
  let m := metrics s in
  reply rid serviceUnavailable
    (mkState (bus s)
       (mkMetrics (totalRequests m) (activeConnections m)
          (failedRequests m + 1) (startTime m))
       (breaker s) (store s) (inflight s) (nextRequest s) (responses s)
       (downstreamCalls s)).

(** A call of [publishToQueue] whose promise is dropped: the caller does
    not await it, a rejection stays with the publisher. *)
Definition fire_and_forget (queue : string) (message : json)
    (p : Publisher.state) : Publisher.state :=
  match Publisher.publishToQueue queue message p with
  | (Some e, p') => Publisher.reject e p'
  | (None, p') => p'
  end.

(** The body of the [try] of POST /api/auth/login and POST /api/orders
    after [breaker.fire] has resolved with [{ data }]. *)
Definition publish_and_reply (now : Z) (rid : nat) (queue type : string)
    (data : json) (s : state) : state :=
  match get_prop "fallback" data with
  | None => catch rid s
  | Some fb =>
      let s' :=
        if negb (truthy fb) && bool_decide (is_Some (Publisher.rabbitChannel (bus s)))
        then
          with_bus
            (fire_and_forget queue
               (JObj [("type", JStr type); ("timestamp", JNum now)]) (bus s)) s
        else s in
      reply rid (mkResponse 200 data) s'
  end.

(** The continuation of a proxied route once [breaker.fire] has resolved. *)
Definition resume (now : Z) (rid : nat) (r : route) (data : json)
    (s : state) : state :=
  match r with
  | AuthLogin => publish_and_reply now rid "auth-events" "USER_LOGIN" data s
  | CreateOrder => publish_and_reply now rid "order-events" "ORDER_CREATED" data s
  | ListUsers => reply rid (mkResponse 200 data) s
  | _ => s
  end.

Definition metricsBody (now heapUsed : Z) (m : metrics_t) : json :=
  JObj [("activeConnections", JNum (activeConnections m));
        ("peakConnections", JNum 100);
        ("memoryUsageMB", JNum ((heapUsed + 524288) / 1048576));
        ("failedRequests", JNum (failedRequests m));
        ("uptimeSeconds", JNum ((now - startTime m) / 1000));
        ("rabbitConnections", JNum 1);
        ("status", JStr "SECURE")].

(** A proxied route up to its [await]: [breaker.fire(method, url, data)]
    either starts [protectedRequest] or resolves at once with the fallback. *)
Definition fire (now : Z) (rid : nat) (r : route) (method url : string)
    (data : json) (s : state) : state :=
  match Breaker.permit circuitBreakerOptions now (breaker s) with
  | (Breaker.ShortCircuit, b) => resume now rid r fallbackData (with_breaker b s)
  | (Breaker.Invoke, b) =>
      mkState (bus s) (metrics s) b (store s)
        (<[rid := AwaitingFire r now]> (inflight s)) (nextRequest s)
        (responses s)
        ((rid, protectedRequest method url data) :: downstreamCalls s)
  end.

(** A request enters the middleware chain: the limiter, then the metrics
    middleware, then the route. *)
Definition arrive (now : Z) (req : request) (heapUsed : Z) (s : state) : state :=
  let rid := nextRequest s in
  match Limiter.admit_request now (ip req) (store s) with
  | (Limiter.Reject, _) =>
      mkState (bus s) (metrics s) (breaker s) (store s) (inflight s) (S rid)
        (<[rid := Limiter.rejection]> (responses s)) (downstreamCalls s)
  | (Limiter.Allow, store') =>
      let m := metrics s in
      let s1 :=
        mkState (bus s)
          (mkMetrics (totalRequests m + 1) (activeConnections m + 1)
             (failedRequests m) (startTime m))
          (breaker s) store' (inflight s) (S rid)
          (responses s) (downstreamCalls s) in
      match target req with
      | AuthLogin =>
          fire now rid AuthLogin "post" (AUTH_SERVICE_URL +:+ "/login")
            (payload req) s1
      | CreateOrder =>
          fire now rid CreateOrder "post" (ORDER_SERVICE_URL +:+ "/orders")
            (payload req) s1
      | ListUsers =>
          fire now rid ListUsers "get" (USER_SERVICE_URL +:+ "/users") JNull s1
      | Metrics =>
          reply rid (mkResponse 200 (metricsBody now heapUsed (metrics s1))) s1
      | Health => reply rid (mkResponse 200 healthBody) s1
      | NoRoute => reply rid (mkResponse 404 JUndefined) s1
      end
  end.

(** What [axios] reports for a downstream call. *)
Inductive axios_result : Type :=
  | HttpResponse (code : Z) (data : json)
  | NetworkError.

(** [axios] resolves for a 2xx status and rejects otherwise. *)
Definition resolved (r : axios_result) : option json :=
  match r with
  | HttpResponse code data =>
      if (200 <=? code) && (code <? 300) then Some data else None
  | NetworkError => None
  end.

Inductive event : Type :=
  | Arrive (req : request) (heapUsed : Z)
  | DownstreamSettled (rid : nat) (r : axios_result)
  | BreakerTimeout (rid : nat)
  | Finish (rid : nat)
  | Bus (e : Publisher.event).

(** [breaker.fire] settles for request [rid]: the breaker records the
    outcome, the promise resolves with the result or with the fallback, and
    the handler continues. *)
Definition settle (now : Z) (rid : nat) (r : route) (yielded : option json)
    (s : state) : state :=
  let failed := match yielded with Some _ => false | None => true end in
  let b := Breaker.record circuitBreakerOptions now failed (breaker s) in
  resume now rid r (default fallbackData yielded) (with_breaker b s).

(** One callback of the event loop.  A downstream result is taken while
    the breaker's timer of [timeout] milliseconds has not run out; once it
    has, [breaker.fire] settles through the timeout.  ['finish'] is emitted
    for an answered request and releases its place in [activeConnections].
    An event that cannot occur in the state leaves it unchanged. *)
Definition step (now : Z) (e : event) (s : state) : state :=
  match e with
  | Arrive req heapUsed => arrive now req heapUsed s
  | DownstreamSettled rid r =>
      match inflight s !! rid with
      | Some (AwaitingFire route started) =>
          if now - started <? Breaker.timeout circuitBreakerOptions
          then settle now rid route (resolved r) s
          else s
      | _ => s
      end
  | BreakerTimeout rid =>
      match inflight s !! rid with
      | Some (AwaitingFire route started) =>
          if now - started <? Breaker.timeout circuitBreakerOptions
          then s
          else settle now rid route None s
      | _ => s
      end
  | Finish rid =>
      match inflight s !! rid with
      | Some AwaitingFinish =>
          let m := metrics s in
          mkState (bus s)
            (mkMetrics (totalRequests m) (activeConnections m - 1)
               (failedRequests m) (startTime m))
            (breaker s) (store s) (delete rid (inflight s)) (nextRequest s)
            (responses s) (downstreamCalls s)
      | _ => s
      end
  | Bus e => with_bus (Publisher.step now e (bus s)) s
  end.

Fixpoint run (trace : list (Z * event)) (s : state) : state :=
  match trace with
  | [] => s
  | (now, e) :: rest => run rest (step now e s)
  end.

(** The callbacks of the bus among the events of a trace. *)
Definition bus_events (trace : list (Z * event)) : list (Z * Publisher.event) :=
  omap (λ te, match te.2 with Bus e => Some (te.1, e) | _ => None end) trace.

(** Request [rid] has been numbered and its handler is no longer suspended
    on [breaker.fire]: it has been answered. *)
Definition answered (s : state) (rid : nat) : Prop :=
  (rid < nextRequest s)%nat
  ∧ ∀ r started, inflight s !! rid ≠ Some (AwaitingFire r started).

End Gateway.

(** ** Scenarios *)

Module Scenario.

Import Gateway.

Definition credentials : json :=
  JObj [("username", JStr "admin"); ("password", JStr "admin123")].

Definition login (client : string) : request :=
  mkRequest client AuthLogin credentials.

Definition health (client : string) : request :=
  mkRequest client Health JUndefined.

(** The breaker has been opened by a login whose downstream call failed. *)
Definition opened_by_login : state :=
  run [(0, Arrive (login "10.0.0.1") 0);
       (10, DownstreamSettled 0 NetworkError)] initial.

(** The same login, answered by the auth service. *)
Definition login_served : state :=
  run [(0, Arrive (login "10.0.0.1") 0);
       (10, DownstreamSettled 0 (HttpResponse 200 (JObj [("success", JBool true)])))]
    initial.

(** What the order service answers to POST /orders, with status 201. *)
Definition order : json :=
  JObj [("id", JNum 1); ("product", JStr "Test"); ("quantity", JNum 1);
        ("userId", JStr "anonymous"); ("status", JStr "pending");
        ("createdAt", JStr "2024-01-01T00:00:00.000Z")].

Definition create_order (client : string) : request :=
  mkRequest client CreateOrder
    (JObj [("product", JStr "Test"); ("quantity", JNum 1)]).

(** The bus is connected and an order request waits for the order service. *)
Definition order_pending : state :=
  run [(0, Bus Publisher.ConnectResolved);
       (1, Bus (Publisher.ChannelResolved 0));
       (2, Arrive (create_order "10.0.0.1") 0)] initial.

Definition users (client : string) : request :=
  mkRequest client ListUsers JUndefined.

(** A login request waits for the auth service. *)
Definition login_pending : state :=
  run [(0, Arrive (login "10.0.0.1") 0)] initial.

(** The bus accepts the connection and refuses the channel while the
    connection stays open; the retry, five seconds later, connects again. *)
Definition channel_refused : list (Z * event) :=
  [(40, Bus Publisher.ConnectResolved);
   (45, Bus (Publisher.ChannelRejected 0));
   (5045, Bus Publisher.TimerFired);
   (5080, Bus Publisher.ConnectResolved);
   (5085, Bus (Publisher.ChannelResolved 1))].

(** One client has used up its hundred requests of the current window. *)
Definition exhausted : state :=
  run (replicate 100 (0, Arrive (health "10.0.0.1") 0)) initial.



End Scenario.

(** ** The books of the request table *)

Module Accounting.
Import Gateway.

(** The request table is in order: numbers not handed out yet are unused,
    the counter of the metrics middleware is the number of requests admitted
    and not finished, and a handler still waiting for [breaker.fire] has not
    answered. *)
Record consistent (s : state) : Prop := mkConsistent {
  fresh_inflight :
    ∀ rid, (nextRequest s ≤ rid)%nat → inflight s !! rid = None;
  fresh_responses :
    ∀ rid, (nextRequest s ≤ rid)%nat → responses s !! rid = None;
  counted :
    activeConnections (metrics s) = Z.of_nat (size (inflight s));
  unanswered :
    ∀ rid r started,
      inflight s !! rid = Some (AwaitingFire r started) →
      responses s !! rid = None
}.

End Accounting.

Module ExtraScenario.
Import Gateway.

(** The bus goes down and comes back while requests are being served: the
    first connection is closed by the broker, [createChannel] on the second
    is rejected because that connection has closed too, the third attempt
    succeeds. *)
Definition reconnected : list (Z * event) :=
  [(40, Bus Publisher.ConnectResolved);
   (45, Bus (Publisher.ChannelResolved 0));
   (100, Arrive (Scenario.create_order "10.0.0.1") 0);
   (900, Bus (Publisher.ConnectionClosed 0));
   (950, DownstreamSettled 0 (HttpResponse 201 Scenario.order));
   (5900, Bus Publisher.TimerFired);
   (5940, Bus Publisher.ConnectResolved);
   (5941, Bus (Publisher.ConnectionClosed 1));
   (5942, Bus (Publisher.ChannelRejected 1));
   (10942, Bus Publisher.TimerFired);
   (10980, Bus Publisher.ConnectResolved);
   (10985, Bus (Publisher.ChannelResolved 2));
   (11000, Arrive (Scenario.login "10.0.0.2") 0)].

End ExtraScenario.

(** ** The unprotected gateway: the variant of the gateway without rate
       limiter, circuit breaker or pooled connection.  POST
       /api/process-heavy, whose answer is a floating-point sum, has no
       counterpart here. *)

Module Vulnerable.

Inductive route : Type :=
  | AuthLogin       (* POST /api/auth/login *)
  | AuthRegister    (* POST /api/auth/register *)
  | CreateOrder     (* POST /api/orders *)
  | ListOrders      (* GET /api/orders *)
  | ListUsers       (* GET /api/users *)
  | GetUser         (* GET /api/users/:id *)
  | Metrics         (* GET /metrics *)
  | Health          (* GET /health *)
  | NoRoute.

(** The routes that call [publishToQueue] after the downstream call. *)
Definition publishes (r : route) : bool :=
  match r with
  | AuthLogin | AuthRegister | CreateOrder => true
  | _ => false
  end.

Definition proxied (r : route) : bool :=
  match r with
  | AuthLogin | AuthRegister | CreateOrder | ListOrders | ListUsers | GetUser => true
  | _ => false
  end.

Record request : Type := mkRequest {
  target : route;
  payload : json;      (* req.body *)
  param : string       (* req.params.id *)
}.

Definition AUTH_SERVICE_URL : string := "http://localhost:3001".
Definition ORDER_SERVICE_URL : string := "http://localhost:3002".
Definition USER_SERVICE_URL : string := "http://localhost:3003".

Record metrics_t : Type := mkMetrics {
  totalRequests : Z;
  activeConnections : Z;
  peakConnections : Z;
  failedRequests : Z;
  rabbitConnections : Z;
  memoryUsageMB : Z;
  startTime : Z
}.

(** What a rejected [axios] promise carries: [error.response?.status],
    absent unless the service answered, and [error.message]. *)
Record failure : Type := mkFailure {
  responseStatus : option Z;
  message : string
}.

Inductive settled : Type :=
  | Resolved (data : json)
  | Rejected (err : failure).

(** A promise of the bus library: fulfilled, or rejected with a message. *)
Inductive promise : Type :=
  | Fulfilled
  | Failed (message : string).

(** Where an admitted request stands. *)
Inductive suspended : Type :=
  | AwaitingDownstream (r : route) (body : json)
  | AwaitingConnect (r : route) (data : json) (queue : string) (event : json)
  | AwaitingChannel (r : route) (data : json) (queue : string) (event : json) (c : nat)
  | AwaitingAssert (r : route) (data : json) (queue : string) (event : json) (c : nat)
  | AwaitingFinish.

(** Where the delayed cleanup of a connection stands. *)
Inductive cleanup : Type :=
  | Scheduled (due : Z)       (* [setTimeout(..., 5000)] *)
  | ClosingChannel            (* at [await channel.close()] *)
  | ClosingConnection.        (* at [await connection.close()] *)

Record state : Type := mkState {
  metrics : metrics_t;
  inflight : gmap nat suspended;
  nextRequest : nat;
  responses : gmap nat response;
  downstreamCalls : list (nat * Gateway.http_call);
  cleanups : gmap nat cleanup;
  live : list nat;                       (* the broker's side: open connections *)
  nextConnection : nat;
  sent : list (nat * string * json)      (* [sendToQueue] calls, newest first *)
}.

Definition initial : state :=
  mkState (mkMetrics 0 0 0 0 0 0 0) ∅ 0 ∅ [] ∅ [] 0 [].

Definition with_metrics (m : metrics_t) (s : state) : state :=
  mkState m (inflight s) (nextRequest s) (responses s) (downstreamCalls s)
    (cleanups s) (live s) (nextConnection s) (sent s).

Definition suspend (rid : nat) (k : suspended) (s : state) : state :=
  mkState (metrics s) (<[rid := k]> (inflight s)) (nextRequest s) (responses s)
    (downstreamCalls s) (cleanups s) (live s) (nextConnection s) (sent s).

(** [res.status(code).json(body)] for request [rid]. *)
Definition reply (rid : nat) (r : response) (s : state) : state :=
  mkState (metrics s) (<[rid := AwaitingFinish]> (inflight s)) (nextRequest s)
    (<[rid := r]> (responses s)) (downstreamCalls s) (cleanups s) (live s)
    (nextConnection s) (sent s).

(** [Math.round((now - metrics.startTime) / 1000)]. *)
Definition uptime (now : Z) (m : metrics_t) : Z := (now - startTime m + 500) / 1000.

Definition metricsFields (m : metrics_t) : list (string * json) :=
  [("totalRequests", JNum (totalRequests m));
   ("activeConnections", JNum (activeConnections m));
   ("peakConnections", JNum (peakConnections m));
   ("failedRequests", JNum (failedRequests m));
   ("rabbitConnections", JNum (rabbitConnections m));
   ("memoryUsageMB", JNum (memoryUsageMB m));
   ("startTime", JNum (startTime m))].

Definition healthBody (now : Z) (m : metrics_t) : json :=
  JObj [("status", JStr "ok"); ("uptime", JNum (uptime now m));
        ("metrics", JObj (metricsFields m))].

(** The label of /metrics. *)
Definition status_label (m : metrics_t) : string :=
  if 100 <? activeConnections m then "OVERLOADED"
  else if 50 <? activeConnections m then "DEGRADED"
  else "HEALTHY".

Definition metricsBody (now : Z) (m : metrics_t) : json :=
  JObj (metricsFields m
        ++ [("status", JStr (status_label m));
            ("uptimeSeconds", JNum (uptime now m))]).

(** The counting middleware: every request passes it. *)
Definition count (m : metrics_t) : metrics_t :=
  let active := activeConnections m + 1 in
  mkMetrics (totalRequests m + 1) active
    (if peakConnections m <? active then active else peakConnections m)
    (failedRequests m) (rabbitConnections m) (memoryUsageMB m) (startTime m).

(** [error.response?.status || 500]. *)
Definition status_or_500 (f : failure) : Z :=
  match responseStatus f with
  | Some code => if code =? 0 then 500 else code
  | None => 500
  end.

(** The answer of the [catch] block of a route. *)
Definition failureResponse (r : route) (f : failure) : response :=
  match r with
  | AuthLogin =>
      mkResponse (status_or_500 f)
        (JObj [("error", JStr "Auth service unavailable");
               ("details", JStr (message f))])
  | AuthRegister =>
      mkResponse (status_or_500 f) (JObj [("error", JStr "Auth service unavailable")])
  | CreateOrder =>
      mkResponse (status_or_500 f) (JObj [("error", JStr "Order service unavailable")])
  | ListOrders =>
      mkResponse 500 (JObj [("error", JStr "Order service unavailable")])
  | _ =>
      mkResponse 500 (JObj [("error", JStr "User service unavailable")])
  end.

Definition catch (rid : nat) (r : route) (f : failure) (s : state) : state :=
  let m := metrics s in
  reply rid (failureResponse r f)
    (with_metrics
       (mkMetrics (totalRequests m) (activeConnections m) (peakConnections m)
          (failedRequests m + 1) (rabbitConnections m) (memoryUsageMB m)
          (startTime m)) s).

(** A field of [req.body]; [express.json()] hands the routes an object or
    an array. *)
Definition body_field (k : string) (body : json) : json :=
  match body with
  | JObj fields => assoc k fields
  | _ => JUndefined
  end.

(** The queue and the event a route publishes once its downstream call has
    resolved with [data]; [iso] is [new Date().toISOString()]. *)
Definition publication (r : route) (body data : json) (iso : string)
  : option (string * json) :=
  match r with
  | AuthLogin =>
      Some ("auth-events",
            JObj [("type", JStr "LOGIN"); ("timestamp", JStr iso);
                  ("data", JObj [("user", body_field "username" body)])])
  | AuthRegister =>
      Some ("auth-events",
            JObj [("type", JStr "REGISTER"); ("timestamp", JStr iso);
                  ("data", JObj [("user", body_field "username" body)])])
  | CreateOrder =>
      Some ("order-events",
            JObj [("type", JStr "ORDER_CREATED"); ("timestamp", JStr iso);
                  ("data", data)])
  | _ => None
  end.

(** The [axios] call of a proxied route. *)
Definition downstream (req : request) : option Gateway.http_call :=
  match target req with
  | AuthLogin => Some (Gateway.AxiosPost (AUTH_SERVICE_URL +:+ "/login") (payload req))
  | AuthRegister =>
      Some (Gateway.AxiosPost (AUTH_SERVICE_URL +:+ "/register") (payload req))
  | CreateOrder =>
      Some (Gateway.AxiosPost (ORDER_SERVICE_URL +:+ "/orders") (payload req))
  | ListOrders => Some (Gateway.AxiosGet (ORDER_SERVICE_URL +:+ "/orders"))
  | ListUsers => Some (Gateway.AxiosGet (USER_SERVICE_URL +:+ "/users"))
  | GetUser => Some (Gateway.AxiosGet (USER_SERVICE_URL +:+ "/users/" +:+ param req))
  | _ => None
  end.

Definition arrive (now : Z) (req : request) (s : state) : state :=
  let rid := nextRequest s in
  let s1 :=
    mkState (count (metrics s)) (inflight s) (S rid) (responses s)
      (downstreamCalls s) (cleanups s) (live s) (nextConnection s) (sent s) in
  match downstream req with
  | Some call =>
      mkState (metrics s1)
        (<[rid := AwaitingDownstream (target req) (payload req)]> (inflight s1))
        (nextRequest s1) (responses s1) ((rid, call) :: downstreamCalls s1)
        (cleanups s1) (live s1) (nextConnection s1) (sent s1)
  | None =>
      match target req with
      | Health => reply rid (mkResponse 200 (healthBody now (metrics s1))) s1
      | Metrics => reply rid (mkResponse 200 (metricsBody now (metrics s1))) s1
      | _ => reply rid (mkResponse 404 JUndefined) s1
      end
  end.

Inductive event : Type :=
  | Arrive (req : request)
  | DownstreamSettled (rid : nat) (o : settled) (iso : string)
  | ConnectSettled (rid : nat) (p : promise)     (* [amqp.connect] *)
  | ChannelSettled (rid : nat) (p : promise)     (* [createChannel] *)
  | AssertSettled (rid : nat) (p : promise)      (* [assertQueue] *)
  | CleanupFired (c : nat)                       (* the timer of the cleanup *)
  | ChannelCloseSettled (c : nat) (p : promise)  (* [channel.close()] *)
  | ConnectionCloseSettled (c : nat) (p : promise)  (* [connection.close()] *)
  | ConnectionLost (c : nat)                     (* the broker drops [c] *)
  | Finish (rid : nat)
  | MemoryTick (heapUsed : Z).                   (* the [setInterval] callback *)

Definition bus_failure (p : promise) : option failure :=
  match p with
  | Fulfilled => None
  | Failed msg => Some (mkFailure None msg)
  end.

(** One callback of the event loop.  A promise of the bus can only be
    fulfilled on a connection that is open; an event that cannot occur in the
    state leaves it unchanged. *)
Definition step (now : Z) (e : event) (s : state) : state :=
  match e with
  | Arrive req => arrive now req s
  | DownstreamSettled rid o iso =>
      match inflight s !! rid with
      | Some (AwaitingDownstream r body) =>
          match o with
          | Resolved data =>
              match publication r body data iso with
              | Some (queue, event) =>
                  suspend rid (AwaitingConnect r data queue event) s
              | None => reply rid (mkResponse 200 data) s
              end
          | Rejected f => catch rid r f s
          end
      | _ => s
      end
  | ConnectSettled rid p =>
      match inflight s !! rid with
      | Some (AwaitingConnect r data queue event) =>
          match bus_failure p with
          | Some f => catch rid r f s
          | None =>
              let c := nextConnection s in
              let m := metrics s in
              mkState
                (mkMetrics (totalRequests m) (activeConnections m)
                   (peakConnections m) (failedRequests m)
                   (rabbitConnections m + 1) (memoryUsageMB m) (startTime m))
                (<[rid := AwaitingChannel r data queue event c]> (inflight s))
                (nextRequest s) (responses s) (downstreamCalls s) (cleanups s)
                (c :: live s) (S c) (sent s)
          end
      | _ => s
      end
  | ChannelSettled rid p =>
      match inflight s !! rid with
      | Some (AwaitingChannel r data queue event c) =>
          match bus_failure p with
          | Some f => catch rid r f s
          | None =>
              if bool_decide (c ∈ live s)
              then suspend rid (AwaitingAssert r data queue event c) s
              else s
          end
      | _ => s
      end
  | AssertSettled rid p =>
      match inflight s !! rid with
      | Some (AwaitingAssert r data queue event c) =>
          match bus_failure p with
          | Some f => catch rid r f s
          | None =>
              if bool_decide (c ∈ live s) then
                reply rid (mkResponse 200 data)
                  (mkState (metrics s) (inflight s) (nextRequest s) (responses s)
                     (downstreamCalls s)
                     (<[c := Scheduled (now + 5000)]> (cleanups s)) (live s)
                     (nextConnection s) ((c, queue, event) :: sent s))
              else s
          end
      | _ => s
      end
  | CleanupFired c =>
      match cleanups s !! c with
      | Some (Scheduled due) =>
          if due <=? now then
            mkState (metrics s) (inflight s) (nextRequest s) (responses s)
              (downstreamCalls s) (<[c := ClosingChannel]> (cleanups s)) (live s)
              (nextConnection s) (sent s)
          else s
      | _ => s
      end
  | ChannelCloseSettled c p =>
      match cleanups s !! c with
      | Some ClosingChannel =>
          match p with
          | Fulfilled =>
              if bool_decide (c ∈ live s) then
                mkState (metrics s) (inflight s) (nextRequest s) (responses s)
                  (downstreamCalls s) (<[c := ClosingConnection]> (cleanups s))
                  (live s) (nextConnection s) (sent s)
              else s
          | Failed _ =>
              mkState (metrics s) (inflight s) (nextRequest s) (responses s)
                (downstreamCalls s) (delete c (cleanups s)) (live s)
                (nextConnection s) (sent s)
          end
      | _ => s
      end
  | ConnectionCloseSettled c p =>
      match cleanups s !! c with
      | Some ClosingConnection =>
          match p with
          | Fulfilled =>
              if bool_decide (c ∈ live s) then
                let m := metrics s in
                mkState
                  (mkMetrics (totalRequests m) (activeConnections m)
                     (peakConnections m) (failedRequests m)
                     (rabbitConnections m - 1) (memoryUsageMB m) (startTime m))
                  (inflight s) (nextRequest s) (responses s) (downstreamCalls s)
                  (delete c (cleanups s)) (Publisher.remove c (live s))
                  (nextConnection s) (sent s)
              else s
          | Failed _ =>
              mkState (metrics s) (inflight s) (nextRequest s) (responses s)
                (downstreamCalls s) (delete c (cleanups s)) (live s)
                (nextConnection s) (sent s)
          end
      | _ => s
      end
  | ConnectionLost c =>
      mkState (metrics s) (inflight s) (nextRequest s) (responses s)
        (downstreamCalls s) (cleanups s) (Publisher.remove c (live s))
        (nextConnection s) (sent s)
  | Finish rid =>
      match inflight s !! rid with
      | Some AwaitingFinish =>
          let m := metrics s in
          mkState
            (mkMetrics (totalRequests m) (activeConnections m - 1)
               (peakConnections m) (failedRequests m) (rabbitConnections m)
               (memoryUsageMB m) (startTime m))
            (delete rid (inflight s)) (nextRequest s) (responses s)
            (downstreamCalls s) (cleanups s) (live s) (nextConnection s) (sent s)
      | _ => s
      end
  | MemoryTick heapUsed =>
      let m := metrics s in
      with_metrics
        (mkMetrics (totalRequests m) (activeConnections m) (peakConnections m)
           (failedRequests m) (rabbitConnections m)
           ((heapUsed + 524288) / 1048576) (startTime m)) s
  end.

Fixpoint run (trace : list (Z * event)) (s : state) : state :=
  match trace with
  | [] => s
  | (now, e) :: rest => run rest (step now e s)
  end.

End Vulnerable.

Module VulnerableScenario.
Import Vulnerable.

Definition order_request : request :=
  mkRequest CreateOrder (JObj [("product", JStr "Test"); ("quantity", JNum 1)]) "".

(** One order request up to the point where [publishToQueue] holds its
    connection: the request arrives, the order service answers, the broker
    accepts the connection. *)
Definition order_connected (rid : nat) : list (Z * event) :=
  let t := 3 * Z.of_nat rid in
  [(t, Arrive order_request);
   (t + 1, DownstreamSettled rid (Resolved Scenario.order) "2024-01-01T00:00:00.001Z");
   (t + 2, ConnectSettled rid Fulfilled)].

(** [n] such requests, one after the other, numbered from [rid]. *)
Fixpoint flood (n rid : nat) : list (Z * event) :=
  match n with
  | O => []
  | S n' => order_connected rid ++ flood n' (S rid)
  end.

(** An order request waits for the order service. *)
Definition order_waiting : state := run [(0, Arrive order_request)] initial.

End VulnerableScenario.

(** ** The order service (services/order-service/index.js) *)

Module OrderService.

(** [a || b]. *)
Definition js_or (a b : json) : json := if truthy a then a else b.

(** A property of a parsed body; [express.json()] yields an object or an
    array. *)
Definition field (k : string) (body : json) : json :=
  match body with
  | JObj fields => assoc k fields
  | _ => JUndefined
  end.

Record order : Type := mkOrder {
  id : Z;
  product : json;
  quantity : json;
  userId : json;
  createdAt : string
}.

Definition order_json (o : order) : json :=
  JObj [("id", JNum (id o)); ("product", product o); ("quantity", quantity o);
        ("userId", userId o); ("status", JStr "pending");
        ("createdAt", JStr (createdAt o))].

Record metrics_t : Type := mkMetrics { ordersCreated : Z; ordersRetrieved : Z }.

Record state : Type := mkState {
  orders : list order;
  orderIdCounter : Z;
  metrics : metrics_t;
  timers : gmap nat json;         (* POST /orders waiting for its [setTimeout] *)
  nextRequest : nat;
  responses : gmap nat response
}.

Definition initial : state := mkState [] 1 (mkMetrics 0 0) ∅ 0 ∅.

Inductive request : Type :=
  | Health                       (* GET /health *)
  | ListOrders                   (* GET /orders *)
  | CreateOrder (body : json)    (* POST /orders *)
  | GetOrder (parsed : option Z).  (* GET /orders/:id; [parseInt(req.params.id)], [None] for NaN *)

Inductive event : Type :=
  | Arrive (req : request)
  | TimerFired (rid : nat) (iso : string).  (* [iso] is [new Date().toISOString()] *)

Definition metricsJson (m : metrics_t) : json :=
  JObj [("ordersCreated", JNum (ordersCreated m));
        ("ordersRetrieved", JNum (ordersRetrieved m))].

(** [orders.find(o => o.id === parseInt(req.params.id))]. *)
Definition find_order (parsed : option Z) (l : list order) : option order :=
  match parsed with
  | Some k => List.find (λ o, id o =? k) l
  | None => None
  end.

Definition answer (rid : nat) (r : response) (s : state) : state :=
  mkState (orders s) (orderIdCounter s) (metrics s) (timers s) (S rid)
    (<[rid := r]> (responses s)).

Definition arrive (req : request) (s : state) : state :=
  let rid := nextRequest s in
  match req with
  | Health =>
      answer rid
        (mkResponse 200
           (JObj [("status", JStr "ok"); ("service", JStr "order-service");
                  ("metrics", metricsJson (metrics s))])) s
  | ListOrders =>
      let m := mkMetrics (ordersCreated (metrics s)) (ordersRetrieved (metrics s) + 1) in
      answer rid (mkResponse 200 (JArr (order_json <$> orders s)))
        (mkState (orders s) (orderIdCounter s) m (timers s) (nextRequest s)
           (responses s))
  | CreateOrder body =>
      mkState (orders s) (orderIdCounter s) (metrics s)
        (<[rid := body]> (timers s)) (S rid) (responses s)
  | GetOrder parsed =>
      match find_order parsed (orders s) with
      | Some o => answer rid (mkResponse 200 (order_json o)) s
      | None =>
          answer rid (mkResponse 404 (JObj [("error", JStr "Order not found")])) s
      end
  end.

(** The callback of POST /orders. *)
Definition create (rid : nat) (body : json) (iso : string) (s : state) : state :=
  let o :=
    mkOrder (orderIdCounter s)
      (js_or (field "product" body) (JStr "Unknown Product"))
      (js_or (field "quantity" body) (JNum 1))
      (js_or (field "userId" body) (JStr "anonymous"))
      iso in
  mkState (orders s ++ [o]) (orderIdCounter s + 1)
    (mkMetrics (ordersCreated (metrics s) + 1) (ordersRetrieved (metrics s)))
    (delete rid (timers s)) (nextRequest s)
    (<[rid := mkResponse 201 (order_json o)]> (responses s)).

Definition step (e : event) (s : state) : state :=
  match e with
  | Arrive req => arrive req s
  | TimerFired rid iso =>
      match timers s !! rid with
      | Some body => create rid body iso s
      | None => s
      end
  end.

Definition run (trace : list event) (s : state) : state :=
  foldl (λ s e, step e s) s trace.

End OrderService.

(** ** The auth service: POST /login, POST /register, GET /health *)

Module AuthService.

(** [a === b] on parsed JSON, which is also how a [Map] compares keys:
    primitives by value, objects and arrays by identity; two values parsed
    from different requests are never the same object.  [JNum] stands for
    the whole numbers a double holds exactly. *)
Definition strict_equal (a b : json) : bool :=
  match a, b with
  | JUndefined, JUndefined => true
  | JNull, JNull => true
  | JBool x, JBool y => Bool.eqb x y
  | JNum x, JNum y => x =? y
  | JStr x, JStr y => String.eqb x y
  | _, _ => false
  end.

(** [String(v)], as a template literal renders [v], where the text is
    fixed by the value alone.  The text of a number is the engine's shortest
    round-trip notation, that of an array or object goes through its
    [toString], which a parsed body can shadow: these are [None] here and
    the text comes with the callback that renders them. *)
Definition to_string (v : json) : option string :=
  match v with
  | JUndefined => Some "undefined"
  | JNull => Some "null"
  | JBool true => Some "true"
  | JBool false => Some "false"
  | JStr s => Some s
  | JNum _ | JArr _ | JObj _ => None
  end.

Definition is_number (v : json) : bool :=
  match v with
  | JNum _ => true
  | _ => false
  end.

Definition primitive (v : json) : bool :=
  match v with
  | JArr _ | JObj _ => false
  | _ => true
  end.

(** The range of [Date.now()]: a whole number of milliseconds at most
    8.64e15 from the epoch, which a template literal writes in decimal. *)
Definition valid_time (now : Z) : bool :=
  (-8640000000000000 <=? now) && (now <=? 8640000000000000).

Record user : Type := mkUser { password : json; role : string }.

(** The [users] map: keys in insertion order. *)
Fixpoint get (k : json) (m : list (json * user)) : option user :=
  match m with
  | [] => None
  | (k', u) :: rest => if strict_equal k' k then Some u else get k rest
  end.

Fixpoint set (k : json) (u : user) (m : list (json * user)) : list (json * user) :=
  match m with
  | [] => [(k, u)]
  | (k', u') :: rest =>
      if strict_equal k' k then (k', u) :: rest else (k', u') :: set k u rest
  end.

Record metrics_t : Type := mkMetrics {
  loginAttempts : Z;
  successfulLogins : Z;
  failedLogins : Z;
  registrations : Z
}.

Record state : Type := mkState {
  users : list (json * user);
  metrics : metrics_t;
  timers : gmap nat (json * json);   (* POST /login waiting for its [setTimeout] *)
  nextRequest : nat;
  responses : gmap nat response
}.

Definition initial : state :=
  mkState
    [(JStr "admin", mkUser (JStr "admin123") "admin");
     (JStr "user1", mkUser (JStr "user123") "user")]
    (mkMetrics 0 0 0 0) ∅ 0 ∅.

Definition field (k : string) (body : json) : json :=
  match body with
  | JObj fields => assoc k fields
  | _ => JUndefined
  end.

Inductive request : Type :=
  | Health
  | Login (body : json)
  | Register (body : json).

(** [TimerFired rid text]: the [setTimeout] callback of login [rid] runs;
    [text] is what the engine makes of [${username}] there. *)
Inductive event : Type :=
  | Arrive (req : request)
  | TimerFired (rid : nat) (text : string).

(** The name a request carries is a primitive value.  Both handlers write
    the name to the log through a template literal, which throws for an
    object whose [toString] is shadowed; for a primitive it cannot. *)
Definition renders (e : event) : bool :=
  match e with
  | Arrive (Login body) | Arrive (Register body) =>
      primitive (field "username" body)
  | _ => true
  end.

Definition metricsJson (m : metrics_t) : json :=
  JObj [("loginAttempts", JNum (loginAttempts m));
        ("successfulLogins", JNum (successfulLogins m));
        ("failedLogins", JNum (failedLogins m));
        ("registrations", JNum (registrations m))].

Definition answer (rid : nat) (r : response) (s : state) : state :=
  mkState (users s) (metrics s) (timers s) (nextRequest s)
    (<[rid := r]> (responses s)).

Definition arrive (req : request) (s : state) : state :=
  let rid := nextRequest s in
  let m := metrics s in
  match req with
  | Health =>
      answer rid
        (mkResponse 200
           (JObj [("status", JStr "ok"); ("service", JStr "auth-service");
                  ("metrics", metricsJson m)]))
        (mkState (users s) m (timers s) (S rid) (responses s))
  | Login body =>
      mkState (users s)
        (mkMetrics (loginAttempts m + 1) (successfulLogins m) (failedLogins m)
           (registrations m))
        (<[rid := (field "username" body, field "password" body)]> (timers s))
        (S rid) (responses s)
  | Register body =>
      let username := field "username" body in
      match get username (users s) with
      | Some _ =>
          answer rid
            (mkResponse 400
               (JObj [("success", JBool false);
                      ("error", JStr "Username already exists")]))
            (mkState (users s) m (timers s) (S rid) (responses s))
      | None =>
          answer rid
            (mkResponse 200
               (JObj [("success", JBool true);
                      ("message", JStr "User registered successfully")]))
            (mkState (set username (mkUser (field "password" body) "user") (users s))
               (mkMetrics (loginAttempts m) (successfulLogins m) (failedLogins m)
                  (registrations m + 1))
               (timers s) (S rid) (responses s))
      end
  end.

(** [`token_${username}_${Date.now()}`], with [name] the text of the
    username. *)
Definition tokenFor (name : string) (now : Z) : string :=
  "token_" +:+ name +:+ "_" +:+ pretty now.

Definition granted (username : json) (u : user) (token : string) : response :=
  mkResponse 200
    (JObj [("success", JBool true);
           ("token", JStr token);
           ("user", JObj [("username", username); ("role", JStr (role u))])]).

Definition denied : response :=
  mkResponse 401
    (JObj [("success", JBool false); ("error", JStr "Invalid credentials")]).

(** [user && user.password === password]. *)
Definition matches (username pass : json) (m : list (json * user)) : option user :=
  match get username m with
  | Some u => if strict_equal (password u) pass then Some u else None
  | None => None
  end.

(** The callback of POST /login. *)
Definition check (now : Z) (rid : nat) (text : string) (username pass : json)
    (s : state) : state :=
  let m := metrics s in
  match matches username pass (users s) with
  | Some u =>
      answer rid
        (granted username u (tokenFor (default text (to_string username)) now))
        (mkState (users s)
           (mkMetrics (loginAttempts m) (successfulLogins m + 1) (failedLogins m)
              (registrations m))
           (delete rid (timers s)) (nextRequest s) (responses s))
  | None =>
      answer rid denied
        (mkState (users s)
           (mkMetrics (loginAttempts m) (successfulLogins m) (failedLogins m + 1)
              (registrations m))
           (delete rid (timers s)) (nextRequest s) (responses s))
  end.

Definition step (now : Z) (e : event) (s : state) : state :=
  match e with
  | Arrive req => arrive req s
  | TimerFired rid text =>
      match timers s !! rid with
      | Some (username, pass) => check now rid text username pass s
      | None => s
      end
  end.

Fixpoint run (trace : list (Z * event)) (s : state) : state :=
  match trace with
  | [] => s
  | (now, e) :: rest => run rest (step now e s)
  end.

End AuthService.

(** * Properties *)

(** ** The publisher *)

Section PublisherFacts.

Import Publisher.

(** No callback of the bus ever produces the "not ready" error: the
    rejections it adds come from [assertQueue] or from a channel that
    vanished during the [await]. *)
Lemma step_rejections (now : Z) (e : event) (s : state) :
  ChannelNotReady ∉ rejections s →
  ChannelNotReady ∉ rejections (step now e s).
Proof.
  intros H. destruct e; simpl.
  - destruct (connecting s); simpl; done.
  - destruct (connecting s); simpl; done.
  - case_match; simpl; done.
  - case_match; simpl; done.
  - repeat case_match; simpl; done.
  - repeat case_match; simpl; done.
  - destruct (asserting s !! i) as [[q m]|]; [|done].
    destruct (rabbitChannel s); simpl; [done|].
    rewrite not_elem_of_cons. split; [discriminate|done].
  - destruct (asserting s !! i); simpl; [|done].
    rewrite not_elem_of_cons. split; [discriminate|done].
Qed.

(** C7.  When [publishToQueue] is called while [rabbitChannel] is null, its
    promise is rejected with the "channel is not ready" error before any
    [await], and the publisher is left exactly as it was: nothing is queued
    behind [assertQueue], no connection attempt or timer is started, and
    whatever happens later happens as if the call had not been made. *)
Theorem publish_unready_fails_fast (queue : string) (message : json) (s : state) :
  rabbitChannel s = None →
  publishToQueue queue message s = (Some ChannelNotReady, s)
  ∧ asserting (publishToQueue queue message s).2 = asserting s
  ∧ ∀ tr, sent (run tr (publishToQueue queue message s).2) = sent (run tr s).
Proof.
  intros H. unfold publishToQueue. rewrite H. done.
Qed.

(** An instance: a publish before the first connection is up. *)
Lemma publish_unready_fails_fast_witness :
  rabbitChannel initial = None
  ∧ publishToQueue "auth-events" JNull initial = (Some ChannelNotReady, initial).
Proof.
  split; [reflexivity|].
  apply (publish_unready_fails_fast "auth-events" JNull initial). reflexivity.
Defined.

  (** *** One connection token *)

Lemma remove_singleton (c : nat) (l : list nat) :
  c ∈ l → (length l ≤ 1)%nat → remove c l = [].
Proof.
  destruct l as [|x [|y l]]; simpl; intros Hin Hlen; try lia.
  - by apply elem_of_nil in Hin.
  - apply list_elem_of_singleton in Hin as ->. unfold remove.
    rewrite filter_cons_False by (intros H; by apply H). done.
Qed.

Lemma remove_absent (c : nat) (l : list nat) : c ∉ l → remove c l = l.
Proof.
  unfold remove. induction l as [|x l IH]; [done|].
  rewrite not_elem_of_cons. intros [Hne Hl].
  rewrite filter_cons_True by done. by rewrite IH.
Qed.

(** At every moment exactly one of these exists: a connection attempt under
    way, a scheduled retry, or a connection whose close is listened to. *)
Lemma step_tokens (now : Z) (e : event) (s : state) :
  tokens s = 1%nat → tokens (step now e s) = 1%nat.
Proof.
  unfold tokens. intros H. destruct e; simpl.
  - destruct (connecting s) eqn:E; simpl in *; lia.
  - destruct (connecting s) eqn:E; simpl in *; rewrite ?length_app; simpl; lia.
  - case_bool_decide as Hin; simpl; [|done].
    case_bool_decide; simpl; [|done].
    rewrite (remove_singleton c (opening s)) by (done || lia).
    assert (0 < length (opening s))%nat
      by (destruct (opening s); [by apply elem_of_nil in Hin|simpl; lia]).
    simpl. lia.
  - case_bool_decide as Hin; simpl; [|done].
    rewrite (remove_singleton c (opening s)) by (done || lia).
    assert (0 < length (opening s))%nat
      by (destruct (opening s); [by apply elem_of_nil in Hin|simpl; lia]).
    rewrite length_app. simpl. lia.
  - case_bool_decide; simpl; [|done].
    case_bool_decide as Hin; simpl.
    + rewrite (remove_singleton c (closeHandlers s)) by (done || lia).
      assert (0 < length (closeHandlers s))%nat
        by (destruct (closeHandlers s); [by apply elem_of_nil in Hin|simpl; lia]).
      rewrite length_app. simpl. lia.
    + by rewrite remove_absent.
  - destruct (timers s) as [|due rest] eqn:E; simpl in *;
      [rewrite E; simpl; lia|].
    case_match; simpl; rewrite ?E; simpl; lia.
  - destruct (asserting s !! i) as [[q m]|]; [|done].
    destruct (rabbitChannel s); simpl; done.
  - destruct (asserting s !! i); simpl; done.
Qed.

Lemma run_tokens (tr : list (Z * event)) (s : state) :
  tokens s = 1%nat → tokens (run tr s) = 1%nat.
Proof.
  revert s. induction tr as [|[now e] tr IH]; intros s Hs; simpl; [done|].
  apply IH. by apply step_tokens.
Qed.

(** The callbacks of the connection do not look at the publishes. *)
Lemma step_connection_view (now : Z) (e : event) (s1 s2 : state) :
  connection_view s1 = connection_view s2 →
  connection_view (step now e s1) = connection_view (step now e s2).
Proof.
  unfold connection_view. intros H. simplify_eq.
  destruct s1 as [ch1 cn1 op1 tm1 hd1 as1 lv1 nx1 st1 rj1].
  destruct s2 as [ch2 cn2 op2 tm2 hd2 as2 lv2 nx2 st2 rj2].
  simpl in *. simplify_eq.
  destruct e; simpl; repeat case_match; simpl; done.
Qed.

Lemma elem_of_remove (c x : nat) (l : list nat) :
  x ∈ remove c l ↔ x ≠ c ∧ x ∈ l.
Proof. unfold remove. by rewrite list_elem_of_filter. Qed.

(** Open connections stay attached as long as no channel is refused on an
    open connection. *)
Lemma step_attached (now : Z) (e : event) (s : state) :
  attached s →
  match e with ChannelRejected c => c ∉ live s | _ => True end →
  attached (step now e s).
Proof.
  intros (Hnd & Hlt & Hatt) He. unfold attached. destruct e; simpl.
  - destruct (connecting s); simpl; [done|]. split_and!.
    + constructor; [|done]. intros Hin. apply Hlt in Hin. lia.
    + intros c. rewrite elem_of_cons. intros [->|Hin]; [lia|].
      apply Hlt in Hin. lia.
    + intros c. rewrite !elem_of_cons. intros [->|Hin]; [by left; left|].
      destruct (Hatt c Hin); [left; by right|by right].
  - destruct (connecting s); simpl; done.
  - case_match; simpl; [|done]. split_and!; [done|done|].
    intros x Hx. rewrite elem_of_remove, elem_of_cons.
    destruct (decide (x = c)) as [->|Hne]; [right; by left|].
    destruct (Hatt x Hx); [left; done|right; by right].
  - case_bool_decide; simpl; [|done]. split_and!; [done|done|].
    intros x Hx. rewrite elem_of_remove.
    destruct (Hatt x Hx); [left; split; [by intros ->|done]|by right].
  - case_bool_decide; simpl; [|done].
    assert (NoDup (remove c (live s))) as Hnd' by (by apply NoDup_filter).
    assert (∀ x, x ∈ remove c (live s) →
                 x ∈ opening s ∨ x ∈ remove c (closeHandlers s)) as Hatt'.
    { intros x. rewrite !elem_of_remove. intros [Hne Hx].
      destruct (Hatt x Hx); [by left|right; done]. }
    assert (∀ x, x ∈ remove c (live s) → (x < nextConnection s)%nat) as Hlt'.
    { intros x. rewrite elem_of_remove. intros [_ Hx]. by apply Hlt. }
    case_bool_decide; simpl; done.
  - repeat case_match; simpl; done.
  - destruct (asserting s !! i) as [[q m]|]; [|done].
    destruct (rabbitChannel s); simpl; done.
  - destruct (asserting s !! i); simpl; done.
Qed.

Lemma attached_at_most_one (s : state) :
  attached s → tokens s = 1%nat → (length (live s) ≤ 1)%nat.
Proof.
  intros (Hnd & _ & Hatt) Htok. unfold tokens in Htok.
  assert (live s ⊆+ opening s ++ closeHandlers s) as Hsub.
  { apply NoDup_submseteq; [done|]. intros c Hc. rewrite elem_of_app. auto. }
  apply submseteq_length in Hsub. rewrite length_app in Hsub. lia.
Qed.

(** Unless [createChannel] is refused on a connection that stays open, at
    most one connection to the bus is open at any time. *)
Lemma one_live_connection (tr : list (Z * event)) :
  channel_failures_close tr initial →
  (length (live (run tr initial)) ≤ 1)%nat.
Proof.
  assert (∀ s, attached s → tokens s = 1%nat → channel_failures_close tr s →
               attached (run tr s) ∧ tokens (run tr s) = 1%nat) as Hrun.
  { induction tr as [|[now e] tr IH]; intros s Ha Ht Hc; simpl; [done|].
    destruct Hc as [He Hc]. apply IH; [|by apply step_tokens|done].
    apply step_attached; [done|]. by destruct e. }
  intros Hc. destruct (Hrun initial) as [Ha Ht]; [|done|done|].
  - split_and!; simpl; [constructor|intros c Hc'|intros c Hc'];
      by apply elem_of_nil in Hc'.
  - by apply attached_at_most_one.
Qed.

End PublisherFacts.

(** ** The breaker *)

Section BreakerFacts.

Import Breaker.

Context {A : Type} (opts : options) (fallback : option A).

Lemma failures_replicate (n : nat) : failures (replicate n true) = Z.of_nat n.
Proof.
  unfold failures. f_equal.
  induction n as [|n IH]; [done|].
  change (replicate (S n) true) with (true :: replicate n true).
  rewrite filter_cons_True by done. simpl. by rewrite IH.
Qed.

Lemma tripped_all_failures (n : nat) :
  (0 < n)%nat →
  errorThresholdPercentage opts ≤ 100 →
  tripped opts (replicate n true) = true.
Proof.
  intros Hn Hthr. unfold tripped.
  rewrite failures_replicate, length_replicate.
  apply andb_true_iff. split; [apply Z.ltb_lt; lia|apply Z.leb_le; nia].
Qed.

Lemma take_app_take (n : nat) (l k : list bool) :
  take n (l ++ take n k) = take n (l ++ k).
Proof.
  rewrite !take_app. f_equal. rewrite take_take. f_equal. lia.
Qed.

(** One failing call, run to completion. *)
Lemma execute_failing_closed now fn b :
  failed opts fn = true →
  state b = CLOSED →
  execute opts now fn fallback b
  = mkOutcome fallback true
      (record opts (now + Z.min (duration fn) (timeout opts)) true b).
Proof.
  intros Hf Hb. unfold execute, permit. rewrite Hb, Hf. done.
Qed.

Lemma execute_open_early now fn b :
  state b = OPEN →
  now - openedAt b < resetTimeout opts →
  execute opts now fn fallback b = mkOutcome fallback false b.
Proof.
  intros Hb Hlt. unfold execute, permit. rewrite Hb.
  destruct (Z.leb_spec (resetTimeout opts) (now - openedAt b)); [lia|done].
Qed.

Lemma execute_failing_open now fn b :
  failed opts fn = true →
  state b = OPEN →
  state (after (execute opts now fn fallback b)) = OPEN.
Proof.
  intros Hf Hb. unfold execute, permit. rewrite Hb.
  destruct (resetTimeout opts <=? now - openedAt b); simpl; [|done].
  rewrite Hf. done.
Qed.

Lemma run_failing_open calls b :
  Forall (failing opts) calls →
  state b = OPEN →
  state (run opts calls fallback b) = OPEN.
Proof.
  intros Hall. revert b.
  induction Hall as [|[now fn] calls Hf _ IH]; intros b Hb; simpl; [done|].
  apply IH. by apply execute_failing_open.
Qed.

(** As long as the breaker stays CLOSED under failing calls, its history
    is the run of failures on top of what it held, cut to the window. *)
Lemma run_failing_closed calls b :
  Forall (failing opts) calls →
  calls ≠ [] →
  state b = CLOSED →
  state (run opts calls fallback b) = CLOSED →
  history (run opts calls fallback b)
  = take (rollingCount opts) (replicate (length calls) true ++ history b)
  ∧ tripped opts (history (run opts calls fallback b)) = false.
Proof.
  intros Hall. revert b.
  induction Hall as [|[now fn] calls Hf Hall IH]; intros b Hne Hb Hend; [done|].
  simpl in Hend |- *. rewrite execute_failing_closed in Hend |- * by done.
  simpl in Hend |- *.
  set (b' := record opts (now + Z.min (duration fn) (timeout opts)) true b) in *.
  assert (state b' = CLOSED ∧ history b' = push opts true (history b)
          ∧ tripped opts (history b') = false) as (Hb' & Hh' & Ht').
  { subst b'. unfold record in *. rewrite Hb in *.
    destruct (tripped opts (push opts true (history b))) eqn:Et; simpl in *.
    - rewrite run_failing_open in Hend; [discriminate|done|done].
    - done. }
  destruct calls as [|c calls'].
  - simpl. split; [exact Hh'|exact Ht'].
  - destruct (IH b') as [Hh Ht]; [done|done|done|].
    split; [|exact Ht]. rewrite Hh, Hh'. unfold push.
    rewrite take_app_take. f_equal.
    change (true :: history b) with ([true] ++ history b).
    rewrite (assoc_L (++)), <- replicate_S_end. reflexivity.
Qed.

(** Under constant failure a CLOSED breaker is OPEN once the window holds
    nothing but failures, that is after [rollingCount] calls at the
    latest. *)
Lemma run_failing_opens calls b :
  (0 < rollingCount opts)%nat →
  errorThresholdPercentage opts ≤ 100 →
  Forall (failing opts) calls →
  (rollingCount opts ≤ length calls)%nat →
  state b = CLOSED →
  state (run opts calls fallback b) = OPEN.
Proof.
  intros Hcap Hthr Hall Hlen Hb.
  destruct (state (run opts calls fallback b)) eqn:Hend; [|done|].
  - exfalso.
    assert (calls ≠ []) as Hne by (intros ->; simpl in Hlen; lia).
    destruct (run_failing_closed calls b Hall Hne Hb Hend) as [Hh Ht].
    rewrite Hh in Ht.
    rewrite take_app_le in Ht by (rewrite length_replicate; lia).
    rewrite take_replicate in Ht.
    rewrite Nat.min_l in Ht by lia.
    by rewrite tripped_all_failures in Ht.
  - exfalso. clear Hlen. revert b Hb Hend.
    induction Hall as [|[now fn] calls Hf Hall IH]; intros b Hb Hend; simpl in *.
    { congruence. }
    rewrite execute_failing_closed in Hend by done. simpl in Hend.
    unfold record in Hend. rewrite Hb in Hend.
    destruct (tripped opts (push opts true (history b))).
    + rewrite run_failing_open in Hend; [discriminate|done|done].
    + by eapply IH in Hend.
Qed.

(** While the breaker is OPEN and [resetTimeout] has not elapsed, calls
    leave it exactly as it is. *)
Lemma run_open_early calls b :
  state b = OPEN →
  Forall (λ c : Z * call A, c.1 - openedAt b < resetTimeout opts) calls →
  run opts calls fallback b = b
  ∧ Forall (λ c, execute opts c.1 c.2 fallback b = mkOutcome fallback false b)
      calls.
Proof.
  intros Hb Hall.
  induction Hall as [|[now fn] calls Hlt _ [IH1 IH2]]; simpl; [done|].
  simpl in Hlt. rewrite execute_open_early by done. simpl.
  split; [exact IH1|]. constructor; [|exact IH2].
  simpl. by apply execute_open_early.
Qed.

(** C3.  Take a CLOSED breaker under constant downstream failure.  The
    failing call that brings the failure ratio of the rolling window to
    [errorThresholdPercentage] is still attempted and leaves the breaker
    OPEN, with [openedAt] the time it completed; this happens after
    [rollingCount] failing calls at the latest.  Once OPEN, every call that
    starts less than [resetTimeout] after [openedAt] returns the fallback
    without invoking the wrapped function and leaves the breaker as it is,
    however many such calls there are and whenever they come; the first
    call that starts [resetTimeout] or more after [openedAt] is the one that
    moves the breaker to HALF_OPEN, as its trial. *)
Theorem constant_failure_opens_then_short_circuits (b : t) :
  (0 < rollingCount opts)%nat →
  errorThresholdPercentage opts ≤ 100 →
  state b = CLOSED →
  (∀ now fn,
     failed opts fn = true →
     tripped opts (push opts true (history b)) = true →
     let o := execute opts now fn fallback b in
     invoked o = true ∧ result o = fallback ∧ state (after o) = OPEN
     ∧ openedAt (after o) = now + Z.min (duration fn) (timeout opts))
  ∧ (∀ calls,
       Forall (failing opts) calls →
       (rollingCount opts ≤ length calls)%nat →
       state (run opts calls fallback b) = OPEN)
  ∧ (∀ b',
       state b' = OPEN →
       (∀ calls,
          Forall (λ c : Z * call A, c.1 - openedAt b' < resetTimeout opts) calls →
          run opts calls fallback b' = b'
          ∧ Forall (λ c, execute opts c.1 c.2 fallback b'
                         = mkOutcome fallback false b') calls)
       ∧ (∀ now,
            resetTimeout opts ≤ now - openedAt b' →
            permit opts now b'
            = (Invoke, mkBreaker HALF_OPEN (history b') (openedAt b') true))).
Proof.
  intros Hcap Hthr Hb. split; [|split].
  - intros now fn Hf Htrip. simpl.
    rewrite execute_failing_closed by done. simpl.
    unfold record. rewrite Hb, Htrip. done.
  - intros calls Hall Hlen. by apply run_failing_opens.
  - intros b' Hb'. split.
    + intros calls Hall. by apply run_open_early.
    + intros now Hnow. unfold permit. rewrite Hb'.
      destruct (Z.leb_spec (resetTimeout opts) (now - openedAt b')); [done|lia].
Qed.

End BreakerFacts.

(** An instance: with the gateway's options, ten calls that all outlast the
    timeout leave a fresh breaker OPEN. *)
Lemma constant_failure_opens_then_short_circuits_witness :
  let timed_out := Breaker.mkCall 5000 (Some JNull) in
  Breaker.state
    (Breaker.run Gateway.circuitBreakerOptions (replicate 10 (0, timed_out))
       (Some Gateway.fallbackData) Breaker.initial)
  = Breaker.OPEN.
Proof.
  intros timed_out.
  destruct (constant_failure_opens_then_short_circuits
              Gateway.circuitBreakerOptions (Some Gateway.fallbackData)
              Breaker.initial) as (_ & H & _).
  - vm_compute. lia.
  - vm_compute. discriminate.
  - reflexivity.
  - apply H.
    + apply Forall_forall. intros c Hc. apply elem_of_replicate in Hc as [-> _].
      reflexivity.
    + rewrite length_replicate. vm_compute. lia.
Defined.

(** ** The route handlers *)

Section GatewayFacts.

Import Gateway Scenario.

(** The guarded publish of a route: under the guard the call is always
    suspended on [assertQueue], never rejected on entry. *)
Lemma guarded_publish (queue : string) (message : json) (p : Publisher.state) :
  is_Some (Publisher.rabbitChannel p) →
  fire_and_forget queue message p
  = (Publisher.publishToQueue queue message p).2
  ∧ Publisher.rejections (fire_and_forget queue message p)
    = Publisher.rejections p.
Proof.
  intros [ch Hch]. unfold fire_and_forget, Publisher.publishToQueue.
  rewrite Hch. done.
Qed.

Lemma publish_and_reply_rejections now rid queue type data s :
  Publisher.rejections (bus (publish_and_reply now rid queue type data s))
  = Publisher.rejections (bus s).
Proof.
  unfold publish_and_reply. destruct (get_prop "fallback" data) as [fb|]; [|done].
  destruct (negb (truthy fb)); simpl; [|done].
  case_bool_decide as Hch; simpl; [|done].
  by apply guarded_publish.
Qed.

Lemma resume_rejections now rid r data s :
  Publisher.rejections (bus (resume now rid r data s))
  = Publisher.rejections (bus s).
Proof.
  destruct r; simpl; try done; apply publish_and_reply_rejections.
Qed.

Lemma fire_rejections now rid r method url data s :
  Publisher.rejections (bus (fire now rid r method url data s))
  = Publisher.rejections (bus s).
Proof.
  unfold fire. destruct (Breaker.permit _ _ _) as [[] b]; [done|].
  by rewrite resume_rejections.
Qed.

Lemma step_rejections_gateway now e s :
  Publisher.ChannelNotReady ∉ Publisher.rejections (bus s) →
  Publisher.ChannelNotReady ∉ Publisher.rejections (bus (step now e s)).
Proof.
  intros H. destruct e as [req heap|rid r|rid|rid|e]; simpl.
  - unfold arrive. destruct (Limiter.admit_request _ _ _) as [[] st]; [|done].
    destruct (target req); rewrite ?fire_rejections; done.
  - repeat case_match; try done. unfold settle. by rewrite resume_rejections.
  - repeat case_match; try done. unfold settle. by rewrite resume_rejections.
  - repeat case_match; done.
  - by apply step_rejections.
Qed.

(** C10.  Whatever sequence of requests, downstream answers, timeouts and
    bus events the gateway goes through, no call of [publishToQueue] made by
    a route handler is ever rejected with the "channel is not ready" error:
    the handlers call it only after checking [rabbitChannel], and nothing
    runs between that check and the one inside [publishToQueue]. *)
Theorem not_ready_error_unreachable (tr : list (Z * event)) :
  Publisher.ChannelNotReady ∉ Publisher.rejections (bus (run tr initial)).
Proof.
  assert (∀ s, Publisher.ChannelNotReady ∉ Publisher.rejections (bus s) →
               Publisher.ChannelNotReady ∉ Publisher.rejections (bus (run tr s)))
    as Hrun.
  { induction tr as [|[now e] tr IH]; intros s Hs; simpl; [done|].
    apply IH. by apply step_rejections_gateway. }
  apply Hrun. simpl. apply not_elem_of_nil.
Qed.

(** *** Admission *)

Lemma arrive_rejected now req heapUsed s :
  (Limiter.admit_request now (ip req) (store s)).1 = Limiter.Reject →
  arrive now req heapUsed s
  = mkState (bus s) (metrics s) (breaker s) (store s) (inflight s)
      (S (nextRequest s))
      (<[nextRequest s := Limiter.rejection]> (responses s))
      (downstreamCalls s).
Proof.
  unfold arrive. destruct (Limiter.admit_request _ _ _) as [[] st]; simpl; [done|].
  reflexivity.
Qed.

(** C5.  A request the rate limiter rejects is answered within the callback
    that received it, with status 429 and the configured message; it never
    reaches the metrics middleware or a route, so no downstream call is
    started, the breaker is not consulted and nothing is published. *)
Theorem rejected_request_answered_429 (s : state) (now : Z) (req : request)
    (heapUsed : Z) :
  (Limiter.admit_request now (ip req) (store s)).1 = Limiter.Reject →
  let s' := step now (Arrive req heapUsed) s in
  responses s' !! nextRequest s
  = Some (mkResponse 429
            (JObj [("error", JStr "Too many requests, please try again later.")]))
  ∧ downstreamCalls s' = downstreamCalls s
  ∧ inflight s' = inflight s
  ∧ breaker s' = breaker s
  ∧ bus s' = bus s.
Proof.
  intros H. simpl. rewrite arrive_rejected by done. simpl.
  rewrite lookup_insert_eq. done.
Qed.

(** An instance: the request that follows a hundred others of the same
    client within the window. *)
Lemma rejected_request_answered_429_witness :
  let s' := step 5 (Arrive (login "10.0.0.1") 0) exhausted in
  responses s' !! 100%nat = Some Limiter.rejection
  ∧ downstreamCalls s' = downstreamCalls exhausted.
Proof.
  intros s'.
  destruct (rejected_request_answered_429 exhausted 5 (login "10.0.0.1") 0)
    as (H1 & H2 & _).
  - vm_compute. reflexivity.
  - split; [exact H1 | exact H2].
Defined.

(** *** Short-circuited calls *)

Lemma arrive_short_circuited now req heapUsed s store' b :
  Limiter.admit_request now (ip req) (store s) = (Limiter.Allow, store') →
  proxied (target req) = true →
  Breaker.permit circuitBreakerOptions now (breaker s) = (Breaker.ShortCircuit, b) →
  arrive now req heapUsed s
  = reply (nextRequest s) (mkResponse 200 fallbackData)
      (mkState (bus s)
         (mkMetrics (totalRequests (metrics s) + 1)
            (activeConnections (metrics s) + 1)
            (failedRequests (metrics s)) (startTime (metrics s)))
         b store' (inflight s) (S (nextRequest s)) (responses s)
         (downstreamCalls s)).
Proof.
  intros Hadm Hr Hb. unfold arrive. rewrite Hadm.
  destruct (target req); try discriminate Hr;
    unfold fire; simpl; rewrite Hb; reflexivity.
Qed.

(** C2, as the code has it.  An admitted request on a proxied route whose
    breaker call is short-circuited is answered with status 200 and the
    body the fallback returns, [{ error: 'Service temporarily unavailable',
    fallback: true }]; no downstream call is started, nothing is published
    and [failedRequests] does not move. *)
Theorem short_circuit_answered_with_fallback (s : state) (now : Z)
    (req : request) (heapUsed : Z) :
  (Limiter.admit_request now (ip req) (store s)).1 = Limiter.Allow →
  proxied (target req) = true →
  (Breaker.permit circuitBreakerOptions now (breaker s)).1 = Breaker.ShortCircuit →
  let s' := step now (Arrive req heapUsed) s in
  responses s' !! nextRequest s
  = Some (mkResponse 200
            (JObj [("error", JStr "Service temporarily unavailable");
                   ("fallback", JBool true)]))
  ∧ downstreamCalls s' = downstreamCalls s
  ∧ failedRequests (metrics s') = failedRequests (metrics s)
  ∧ bus s' = bus s.
Proof.
  intros Hadm Hr Hb. simpl.
  destruct (Limiter.admit_request now (ip req) (store s)) as [d store'] eqn:Ea.
  destruct (Breaker.permit circuitBreakerOptions now (breaker s)) as [a b] eqn:Eb.
  simpl in Hadm, Hb. subst d a.
  rewrite (arrive_short_circuited _ _ _ _ _ _ Ea Hr Eb). simpl.
  rewrite lookup_insert_eq. done.
Qed.

(** An instance: the login that arrives after the breaker was opened. *)
Lemma short_circuit_answered_with_fallback_witness :
  responses (step 20 (Arrive (login "10.0.0.2") 0) opened_by_login) !! 1%nat
  = Some (mkResponse 200 fallbackData).
Proof.
  apply (short_circuit_answered_with_fallback opened_by_login 20
           (login "10.0.0.2") 0);
    vm_compute; reflexivity.
Defined.

(** C2 as the spec words it fails: the short-circuited request of the
    scenario [opened_by_login] is answered 200 with the fallback body, not 503 with
    [{ error: 'Service Unavailable' }]. *)
Lemma short_circuit_not_503 :
  let req := login "10.0.0.2" in
  (Limiter.admit_request 20 (ip req) (store opened_by_login)).1 = Limiter.Allow
  ∧ (Breaker.permit circuitBreakerOptions 20 (breaker opened_by_login)).1
    = Breaker.ShortCircuit
  ∧ ¬ (responses (step 20 (Arrive req 0) opened_by_login) !! 1%nat
       = Some (mkResponse 503 (JObj [("error", JStr "Service Unavailable")]))).
Proof.
  split; [vm_compute; reflexivity|].
  split; [vm_compute; reflexivity|].
  vm_compute. discriminate.
Qed.

(** *** The liveness route *)

(** C9, as the code has it.  GET /health never goes through the breaker:
    whatever the breaker's state, the request starts no downstream call and
    leaves the breaker untouched.  It does go through the rate limiter,
    which is installed before every route: it is answered with the liveness
    body when the limiter admits it and with the 429 message otherwise. *)
Theorem health_bypasses_breaker_only (s : state) (now : Z) (client : string)
    (payload : json) (heapUsed : Z) :
  let s' := step now (Arrive (mkRequest client Health payload) heapUsed) s in
  responses s' !! nextRequest s
  = Some (match (Limiter.admit_request now client (store s)).1 with
          | Limiter.Allow =>
              mkResponse 200 (JObj [("status", JStr "ok"); ("protected", JBool true)])
          | Limiter.Reject => Limiter.rejection
          end)
  ∧ breaker s' = breaker s
  ∧ downstreamCalls s' = downstreamCalls s.
Proof.
  simpl. unfold arrive. simpl.
  destruct (Limiter.admit_request now client (store s)) as [[] store']; simpl;
    rewrite lookup_insert_eq; done.
Qed.

(** C9 as the spec words it fails: the hundred-and-first /health request of
    a client within one window is answered 429, not with the liveness
    response. *)
Lemma health_is_rate_limited :
  let s' := step 1000 (Arrive (health "10.0.0.1") 0) exhausted in
  responses s' !! 100%nat
  = Some (mkResponse 429
            (JObj [("error", JStr "Too many requests, please try again later.")]))
  ∧ responses s' !! 100%nat ≠ Some (mkResponse 200 healthBody).
Proof.
  split; [vm_compute; reflexivity|]. vm_compute. discriminate.
Qed.

(** *** The in-flight counter *)





(** *** Answers are final *)


(** Once a request is answered no callback rewrites its response. *)
Lemma step_answered now e s rid :
  answered s rid →
  answered (step now e s) rid
  ∧ responses (step now e s) !! rid = responses s !! rid.
Proof.
  intros [Hlt Hna]. unfold answered.
  destruct e as [req heap|k r|k|k|e]; simpl.
  - unfold arrive. destruct (Limiter.admit_request _ _ _) as [[] st]; simpl.
    + destruct (target req); simpl; unfold fire; simpl;
        try destruct (Breaker.permit _ _ _) as [[] b]; simpl;
        unfold publish_and_reply; simpl;
        rewrite ?lookup_insert_ne by lia; (split; [split; [lia|done]|done]).
    + rewrite lookup_insert_ne by lia. split; [split; [lia|done]|done].
  - destruct (inflight s !! k) as [[r0 t0|]|] eqn:Ek; try done.
    case_match; try done.
    assert (k ≠ rid) as Hne by (intros ->; by eapply Hna).
    unfold settle. destruct r0; simpl; try done;
      unfold publish_and_reply; repeat case_match; simpl;
      rewrite ?lookup_insert_ne by done; done.
  - destruct (inflight s !! k) as [[r0 t0|]|] eqn:Ek; try done.
    case_match; try done.
    assert (k ≠ rid) as Hne by (intros ->; by eapply Hna).
    unfold settle. destruct r0; simpl; try done;
      unfold publish_and_reply; repeat case_match; simpl;
      rewrite ?lookup_insert_ne by done; done.
  - destruct (inflight s !! k) as [[r0 t0|]|] eqn:Ek; try done.
    simpl. split; [|done]. split; [done|]. intros r started.
    rewrite lookup_delete. case_decide; [done|apply Hna].
  - done.
Qed.

Lemma run_answered tr s rid :
  answered s rid → responses (run tr s) !! rid = responses s !! rid.
Proof.
  revert s. induction tr as [|[now e] tr IH]; intros s Hs; simpl; [done|].
  destruct (step_answered now e s rid Hs) as [Hs' Heq].
  rewrite IH by done. exact Heq.
Qed.





(** *** One breaker for every route *)

Lemma resume_breaker now rid r data s :
  breaker (resume now rid r data s) = breaker s.
Proof.
  destruct r; simpl; try done;
    unfold publish_and_reply; repeat case_match; done.
Qed.

Lemma open_short_circuits now (b : Breaker.t) :
  Breaker.state b = Breaker.OPEN →
  now - Breaker.openedAt b < Breaker.resetTimeout circuitBreakerOptions →
  Breaker.permit circuitBreakerOptions now b = (Breaker.ShortCircuit, b).
Proof.
  intros Hs Hlt. unfold Breaker.permit. rewrite Hs.
  destruct (Z.leb_spec (Breaker.resetTimeout circuitBreakerOptions)
              (now - Breaker.openedAt b)); [lia|done].
Qed.

(** C8, as the code has it.  There is one breaker object and every proxied
    route fires it.  The outcome of a call made for any route is recorded in
    that one state; and while it is OPEN, within [resetTimeout] of
    [openedAt], a request for any proxied route is answered with the
    fallback without its own target being called. *)
Theorem one_breaker_for_all_targets (s : state) (now : Z) (rid : nat)
    (r : route) (started : Z) (result : axios_result) :
  inflight s !! rid = Some (AwaitingFire r started) →
  now - started < Breaker.timeout circuitBreakerOptions →
  let s1 := step now (DownstreamSettled rid result) s in
  breaker s1
  = Breaker.record circuitBreakerOptions now
      (match resolved result with Some _ => false | None => true end)
      (breaker s)
  ∧ ∀ now' req heapUsed,
      Breaker.state (breaker s1) = Breaker.OPEN →
      now' - Breaker.openedAt (breaker s1)
        < Breaker.resetTimeout circuitBreakerOptions →
      proxied (target req) = true →
      (Limiter.admit_request now' (ip req) (store s1)).1 = Limiter.Allow →
      let s2 := step now' (Arrive req heapUsed) s1 in
      responses s2 !! nextRequest s1 = Some (mkResponse 200 fallbackData)
      ∧ downstreamCalls s2 = downstreamCalls s1.
Proof.
  intros Hin Hnow s1.
  assert (breaker s1
          = Breaker.record circuitBreakerOptions now
              (match resolved result with Some _ => false | None => true end)
              (breaker s)) as Hb.
  { subst s1. simpl. rewrite Hin.
    assert ((now - started <? 3000) = true) as ->
      by (apply Z.ltb_lt; simpl in Hnow; lia).
    unfold settle. by rewrite resume_breaker. }
  split; [exact Hb|].
  intros now' req heapUsed Hopen Hreset Hprox Hadm s2. subst s2. simpl.
  destruct (Limiter.admit_request now' (ip req) (store s1)) as [d store'] eqn:Ea.
  simpl in Hadm. subst d.
  rewrite (arrive_short_circuited _ _ _ _ _ _ Ea Hprox
             (open_short_circuits now' _ Hopen Hreset)).
  simpl. rewrite lookup_insert_eq. done.
Qed.

(** An instance: a failed login, then a request for the user list. *)
Lemma one_breaker_for_all_targets_witness :
  let s1 := step 10 (DownstreamSettled 0 NetworkError) login_pending in
  let s2 := step 20 (Arrive (users "10.0.0.2") 0) s1 in
  responses s2 !! 1%nat = Some (mkResponse 200 fallbackData)
  ∧ downstreamCalls s2 = downstreamCalls s1.
Proof.
  intros s1 s2.
  destruct (one_breaker_for_all_targets login_pending 10 0%nat AuthLogin 0
              NetworkError) as [_ H].
  - vm_compute. reflexivity.
  - vm_compute. reflexivity.
  - apply (H 20 (users "10.0.0.2") 0); vm_compute; reflexivity.
Defined.

(** C8 as the spec words it fails: the only call that ever failed went to
    the auth service, and it is the request for the user list that is
    short-circuited; had the login succeeded, the user service would have
    been called. *)
Lemma login_failure_short_circuits_users :
  let after_failure := step 20 (Arrive (users "10.0.0.2") 0) opened_by_login in
  let after_success := step 20 (Arrive (users "10.0.0.2") 0) login_served in
  downstreamCalls opened_by_login
  = [(0%nat, AxiosPost "http://auth-service:3001/login" credentials)]
  ∧ Breaker.state (breaker login_pending) = Breaker.CLOSED
  ∧ Breaker.state (breaker opened_by_login) = Breaker.OPEN
  ∧ responses after_failure !! 1%nat = Some (mkResponse 200 fallbackData)
  ∧ downstreamCalls after_failure = downstreamCalls opened_by_login
  ∧ downstreamCalls after_success
    = [(1%nat, AxiosGet "http://user-service:3003/users");
       (0%nat, AxiosPost "http://auth-service:3001/login" credentials)].
Proof. vm_compute. done. Qed.

(** *** The connection and the requests *)

Lemma publish_and_reply_connection now rid queue type data s :
  Publisher.connection_view (bus (publish_and_reply now rid queue type data s))
  = Publisher.connection_view (bus s).
Proof.
  unfold publish_and_reply. destruct (get_prop "fallback" data) as [fb|]; [|done].
  destruct (negb (truthy fb)); simpl; [|done].
  case_bool_decide as Hch; simpl; [|done].
  destruct Hch as [ch Hch]. unfold fire_and_forget, Publisher.publishToQueue.
  rewrite Hch. unfold Publisher.connection_view. simpl. by rewrite Hch.
Qed.

Lemma resume_connection now rid r data s :
  Publisher.connection_view (bus (resume now rid r data s))
  = Publisher.connection_view (bus s).
Proof.
  destruct r; simpl; try done; apply publish_and_reply_connection.
Qed.

(** No callback that serves a request connects to the bus, closes a
    connection, or sets a timer: whatever the requests, the connection is
    left to [connectToRabbitMQ] and its callbacks. *)
Lemma requests_leave_connection now e s :
  (∀ e', e ≠ Bus e') →
  Publisher.connection_view (bus (step now e s))
  = Publisher.connection_view (bus s).
Proof.
  intros Hne. destruct e as [req heap|rid r|rid|rid|e]; simpl.
  - unfold arrive. destruct (Limiter.admit_request _ _ _) as [[] st]; [|done].
    destruct (target req); simpl; try done;
      unfold fire; destruct (Breaker.permit _ _ _) as [[] b]; simpl; try done;
      apply publish_and_reply_connection.
  - repeat case_match; try done. unfold settle. by rewrite resume_connection.
  - repeat case_match; try done. unfold settle. by rewrite resume_connection.
  - repeat case_match; done.
  - by destruct (Hne e).
Qed.

(** The connection state after a run is the one its bus events alone
    produce. *)
Lemma connection_follows_bus_events tr s :
  Publisher.connection_view (bus (run tr s))
  = Publisher.connection_view (Publisher.run (bus_events tr) (bus s)).
Proof.
  assert (∀ p, Publisher.connection_view (bus s) = Publisher.connection_view p →
               Publisher.connection_view (bus (run tr s))
               = Publisher.connection_view (Publisher.run (bus_events tr) p))
    as Hgen; [|by apply Hgen].
  revert s. induction tr as [|[now e] tr IH]; intros s p Hp; simpl; [done|].
  assert ((∀ e', e ≠ Bus e') →
          Publisher.connection_view (bus (step now e s))
          = Publisher.connection_view p) as Hreq
    by (intros He; rewrite <- Hp; by apply requests_leave_connection).
  destruct e as [req heap|rid r|rid|rid|e];
    try (apply IH, Hreq; by intros e').
  apply IH. simpl. by apply step_connection_view.
Qed.

Lemma one_token tr : Publisher.tokens (bus (run tr initial)) = 1%nat.
Proof.
  pose proof (connection_follows_bus_events tr initial) as H.
  pose proof (run_tokens (bus_events tr) Publisher.initial eq_refl) as Ht.
  unfold Publisher.connection_view in H. simplify_eq.
  unfold Publisher.tokens in *. simpl in *. congruence.
Qed.

(** However many requests are served in between, at most one connection is
    open as long as no channel is refused on an open connection. *)
Lemma one_live_connection_gateway tr :
  Publisher.channel_failures_close (bus_events tr) Publisher.initial →
  (length (Publisher.live (bus (run tr initial))) ≤ 1)%nat.
Proof.
  intros Hc. apply one_live_connection in Hc.
  pose proof (connection_follows_bus_events tr initial) as H.
  unfold Publisher.connection_view in H. simplify_eq. simpl in *. congruence.
Qed.

(** C1 at the input where it fails.  [amqp.connect] succeeds, then
    [createChannel] is rejected while the connection stays open: the catch
    block schedules a retry without closing the connection and no close
    listener was installed on it yet.  After the retry two connections are
    open, the gateway knows only the second, and /metrics still reports
    [rabbitConnections: 1]. *)
Theorem refused_channel_leaves_two_connections :
  let s := run channel_refused initial in
  Publisher.live (bus s) = [1; 0]%nat
  ∧ Publisher.rabbitChannel (bus s) = Some 1%nat
  ∧ Publisher.closeHandlers (bus s) = [1]%nat
  ∧ (body <$> responses
                (step 6000 (Arrive (mkRequest "10.0.0.1" Metrics JUndefined) 0) s)
              !! 0%nat)
      ≫= get_prop "rabbitConnections"
    = Some (JNum 1).
Proof. vm_compute. done. Qed.

End GatewayFacts.

(** ** The request table and the counters of the gateway *)

Section GatewayAccounting.
Import Gateway Accounting.


Lemma initial_consistent : consistent initial.
Proof. split; simpl; intros; by rewrite ?lookup_empty. Qed.

(** What a resumed handler does to the request table: it answers. *)
Lemma resume_table now rid r data s :
  proxied r = true →
  ∃ x,
    inflight (resume now rid r data s) = <[rid := AwaitingFinish]> (inflight s)
    ∧ responses (resume now rid r data s) = <[rid := x]> (responses s)
    ∧ nextRequest (resume now rid r data s) = nextRequest s
    ∧ activeConnections (metrics (resume now rid r data s))
      = activeConnections (metrics s).
Proof.
  intros Hr. destruct r; try discriminate Hr; simpl;
    unfold publish_and_reply; repeat case_match; simpl; eauto.
Qed.

Lemma consistent_answer s s' rid x :
  consistent s →
  is_Some (inflight s !! rid) →
  inflight s' = <[rid := AwaitingFinish]> (inflight s) →
  responses s' = <[rid := x]> (responses s) →
  nextRequest s' = nextRequest s →
  activeConnections (metrics s') = activeConnections (metrics s) →
  consistent s'.
Proof.
  intros [Hfi Hfr Hc Hu] [y Hy] Hi Hr Hn Ha.
  assert (rid < nextRequest s)%nat as Hlt.
  { destruct (decide (rid < nextRequest s)%nat); [done|].
    rewrite Hfi in Hy by lia. done. }
  split.
  - intros k Hk. rewrite Hi, lookup_insert_ne by lia. apply Hfi. lia.
  - intros k Hk. rewrite Hr, lookup_insert_ne by lia. apply Hfr. lia.
  - rewrite Ha, Hi, Hc. by erewrite map_size_insert_Some.
  - intros k r0 t0. rewrite Hi, Hr, lookup_insert. case_decide; [done|].
    rewrite lookup_insert_ne by done. apply Hu.
Qed.

Lemma consistent_new s s' y :
  consistent s →
  inflight s' = <[nextRequest s := y]> (inflight s) →
  (responses s' = responses s
   ∨ y = AwaitingFinish ∧ ∃ x, responses s' = <[nextRequest s := x]> (responses s)) →
  nextRequest s' = S (nextRequest s) →
  activeConnections (metrics s') = activeConnections (metrics s) + 1 →
  consistent s'.
Proof.
  intros [Hfi Hfr Hc Hu] Hi Hr Hn Ha. split.
  - intros k Hk. rewrite Hi, lookup_insert_ne by lia. apply Hfi. lia.
  - intros k Hk. destruct Hr as [-> | (_ & x & ->)];
      rewrite ?lookup_insert_ne by lia; apply Hfr; lia.
  - rewrite Ha, Hi, Hc, map_size_insert_None by (apply Hfi; lia). lia.
  - intros k r0 t0. rewrite Hi, lookup_insert. case_decide as Hk.
    + subst k. intros Hy. destruct Hr as [-> | (-> & _)]; [|done].
      apply Hfr. lia.
    + intros Hk'. destruct Hr as [-> | (_ & x & ->)];
        rewrite ?lookup_insert_ne by done; by eapply Hu.
Qed.

Lemma consistent_same s s' :
  consistent s →
  inflight s' = inflight s →
  responses s' = responses s →
  nextRequest s' = nextRequest s →
  activeConnections (metrics s') = activeConnections (metrics s) →
  consistent s'.
Proof.
  intros [Hfi Hfr Hc Hu] Hi Hr Hn Ha.
  split; rewrite ?Hi, ?Hr, ?Hn, ?Ha; done.
Qed.

Lemma settle_consistent now rid r started yielded s :
  consistent s →
  inflight s !! rid = Some (AwaitingFire r started) →
  consistent (settle now rid r yielded s).
Proof.
  intros Hs Hin. unfold settle.
  destruct (proxied r) eqn:Hr.
  - match goal with
    | |- consistent (resume ?n ?k ?r ?d ?s0) =>
        destruct (resume_table n k r d s0 Hr) as (x & H1 & H2 & H3 & H4)
    end.
    eapply consistent_answer; [exact Hs|by rewrite Hin|exact H1|exact H2|exact H3|exact H4].
  - destruct r; try discriminate Hr; simpl;
      by eapply consistent_same.
Qed.

(** Every callback keeps the request table in order. *)
Lemma step_consistent now e s : consistent s → consistent (step now e s).
Proof.
  intros Hs. destruct e as [req heap|rid r|rid|rid|e]; simpl.
  - unfold arrive.
    destruct (Limiter.admit_request _ _ _) as [[] st] eqn:Ea.
    + destruct (target req) eqn:Et;
        try (eapply consistent_new; [exact Hs|..]; simpl; eauto; fail);
        unfold fire;
        (destruct (Breaker.permit _ _ _) as [[] b];
         [eapply consistent_new; [exact Hs|..]; simpl; eauto|]);
        match goal with
        | |- consistent (resume ?n ?k ?r ?d ?s0) =>
            destruct (resume_table n k r d s0 eq_refl) as (x & H1 & H2 & H3 & H4)
        end;
        (eapply consistent_new; [exact Hs|..];
         [rewrite H1; reflexivity
         |right; split; [done|]; rewrite H2; eauto
         |rewrite H3; reflexivity
         |rewrite H4; reflexivity]).
    + destruct Hs as [Hfi Hfr Hc Hu]. split; simpl.
      * intros k Hk. apply Hfi. lia.
      * intros k Hk. rewrite lookup_insert_ne by lia. apply Hfr. lia.
      * done.
      * intros k r0 t0 Hk. rewrite lookup_insert_ne; [by eapply Hu|].
        intros <-. rewrite Hfi in Hk by lia. done.
  - destruct (inflight s !! rid) as [[r0 t0|]|] eqn:Ek; try done.
    case_match; try done. by eapply settle_consistent.
  - destruct (inflight s !! rid) as [[r0 t0|]|] eqn:Ek; try done.
    case_match; try done. by eapply settle_consistent.
  - destruct (inflight s !! rid) as [[r0 t0|]|] eqn:Ek; try done.
    destruct Hs as [Hfi Hfr Hc Hu]. split; simpl.
    + intros k Hk. rewrite lookup_delete_ne; [by apply Hfi|].
      intros <-. rewrite Hfi in Ek by lia. done.
    + done.
    + rewrite Hc. erewrite map_size_delete_Some by done.
      assert (0 < size (inflight s))%nat; [|lia].
      destruct (decide (size (inflight s) = 0%nat)) as [H0|]; [|lia].
      apply map_size_empty_inv in H0. rewrite H0, lookup_empty in Ek. done.
    + intros k r0 t0. rewrite lookup_delete. case_decide; [done|apply Hu].
  - by eapply consistent_same.
Qed.

Lemma run_consistent tr s : consistent s → consistent (run tr s).
Proof.
  revert s. induction tr as [|[now e] tr IH]; intros s Hs; simpl; [done|].
  by apply IH, step_consistent.
Qed.

(** X1.  At every moment [activeConnections] is the number of requests that
    have passed the rate limiter and not yet emitted ['finish']; it never
    goes below zero. *)
Theorem active_connections_counts_in_flight (tr : list (Z * event)) :
  let s := run tr initial in
  activeConnections (metrics s) = Z.of_nat (size (inflight s))
  ∧ 0 ≤ activeConnections (metrics s).
Proof.
  intros s. destruct (run_consistent tr initial initial_consistent) as [_ _ Hc _].
  fold s in Hc. split; [exact Hc|lia].
Qed.
Lemma run_split (tr1 tr2 : list (Z * event)) (s : state) :
  run (tr1 ++ tr2) s = run tr2 (run tr1 s).
Proof.
  revert s. induction tr1 as [|[now e] tr1 IH]; intros s; simpl; [done|].
  apply IH.
Qed.

(** X2.  A response once sent stands: whatever callbacks run afterwards,
    the request keeps the answer it got, and no request is answered twice. *)
Theorem answers_are_final (tr1 tr2 : list (Z * event)) (rid : nat) (r : response) :
  responses (run tr1 initial) !! rid = Some r →
  responses (run (tr1 ++ tr2) initial) !! rid = Some r.
Proof.
  intros Hr. rewrite run_split.
  destruct (run_consistent tr1 initial initial_consistent) as [_ Hfr _ Hu].
  rewrite run_answered; [exact Hr|]. split.
  - destruct (decide (rid < nextRequest (run tr1 initial))%nat); [done|].
    rewrite Hfr in Hr by lia. done.
  - intros r0 t0 Hin. apply Hu in Hin. congruence.
Qed.

Lemma answers_are_final_witness :
  responses (run [(0, Arrive (Scenario.health "10.0.0.1") 0);
                  (5, Finish 0);
                  (9, Arrive (Scenario.health "10.0.0.1") 0)] initial) !! 0%nat
  = Some (mkResponse 200 healthBody).
Proof.
  apply (answers_are_final [(0, Arrive (Scenario.health "10.0.0.1") 0)]
           [(5, Finish 0); (9, Arrive (Scenario.health "10.0.0.1") 0)]).
  vm_compute. reflexivity.
Defined.

(** X3.  When the downstream call of a proxied request fails (a network
    error or a status outside 2xx) or outlasts the breaker's timeout, the
    client is answered 200 with the fallback body; [failedRequests] does not
    move and nothing is published. *)
Theorem downstream_failure_answered_with_fallback (s : state) (now : Z)
    (e : event) (rid : nat) (r : route) (started : Z) :
  inflight s !! rid = Some (AwaitingFire r started) →
  proxied r = true →
  (∃ result, e = DownstreamSettled rid result ∧ resolved result = None
             ∧ now - started < Breaker.timeout circuitBreakerOptions)
  ∨ (e = BreakerTimeout rid
     ∧ Breaker.timeout circuitBreakerOptions ≤ now - started) →
  let s' := step now e s in
  responses s' !! rid = Some (mkResponse 200 fallbackData)
  ∧ failedRequests (metrics s') = failedRequests (metrics s)
  ∧ bus s' = bus s.
Proof.
  intros Hin Hr He s'.
  assert (s' = settle now rid r None s) as ->.
  { subst s'. destruct He as [(result & -> & Hres & Hlt) | [-> Hge]]; simpl;
      rewrite Hin; simpl in *.
    - destruct (Z.ltb_spec (now - started) 3000); [|lia]. by rewrite Hres.
    - destruct (Z.ltb_spec (now - started) 3000); [lia|done]. }
  unfold settle. destruct r; try discriminate Hr; simpl;
    rewrite ?lookup_insert_eq; done.
Qed.

Lemma downstream_failure_answered_with_fallback_witness :
  responses (step 10 (DownstreamSettled 0 (HttpResponse 500 JNull))
               Scenario.login_pending) !! 0%nat
  = Some (mkResponse 200 fallbackData).
Proof.
  apply (downstream_failure_answered_with_fallback Scenario.login_pending 10
           (DownstreamSettled 0 (HttpResponse 500 JNull)) 0%nat AuthLogin 0).
  - vm_compute. reflexivity.
  - reflexivity.
  - left. exists (HttpResponse 500 JNull). split; [reflexivity|].
    split; [reflexivity|]. vm_compute. reflexivity.
Defined.

(** X4.  [failedRequests] moves in one case only, and then by one: a login
    or order request whose downstream call succeeded with a body that is
    [null] or [undefined], so that reading [response.data.fallback] throws;
    that request is answered 503.  Downstream failures, timeouts,
    short-circuits and rate-limit rejections are never counted. *)
Theorem failed_requests_count_unreadable_bodies (s : state) (now : Z) (e : event) :
  let s' := step now e s in
  failedRequests (metrics s') = failedRequests (metrics s)
  ∨ (failedRequests (metrics s') = failedRequests (metrics s) + 1
     ∧ ∃ rid code data r started,
         e = DownstreamSettled rid (HttpResponse code data)
         ∧ inflight s !! rid = Some (AwaitingFire r started)
         ∧ (r = AuthLogin ∨ r = CreateOrder)
         ∧ 200 ≤ code < 300
         ∧ (data = JNull ∨ data = JUndefined)
         ∧ responses s' !! rid = Some serviceUnavailable).
Proof.
  intros s'. subst s'. destruct e as [req heap|rid res|rid|rid|e]; simpl.
  - left. unfold arrive. destruct (Limiter.admit_request _ _ _) as [[] st]; [|done].
    destruct (target req); simpl; try done; unfold fire;
      destruct (Breaker.permit _ _ _) as [[] b]; simpl; done.
  - destruct (inflight s !! rid) as [[r0 t0|]|] eqn:Ek; auto.
    case_match; auto. unfold settle.
    destruct (resolved res) as [data|] eqn:Hres; simpl.
    + destruct res as [code d|]; [|done]. simpl in Hres.
      destruct ((200 <=? code) && (code <? 300)) eqn:Hc; [|done].
      apply andb_true_iff in Hc as [H1%Z.leb_le H2%Z.ltb_lt]. simplify_eq.
      assert (∀ queue type,
                 let s1 := publish_and_reply now rid queue type data
                             (with_breaker
                                (Breaker.record circuitBreakerOptions now false (breaker s)) s) in
                 failedRequests (metrics s1) = failedRequests (metrics s)
                 ∨ failedRequests (metrics s1) = failedRequests (metrics s) + 1
                   ∧ (data = JNull ∨ data = JUndefined)
                   ∧ responses s1 !! rid = Some serviceUnavailable) as Hpub.
      { intros queue type. unfold publish_and_reply.
        destruct data; simpl; rewrite ?lookup_insert_eq; auto;
          repeat case_match; simpl; auto. }
      destruct r0; simpl; auto.
      * destruct (Hpub "auth-events" "USER_LOGIN") as [?|(?&?&?)]; [by left|].
        right. split; [done|]. exists rid, code, data, AuthLogin, t0. auto 10.
      * destruct (Hpub "order-events" "ORDER_CREATED") as [?|(?&?&?)]; [by left|].
        right. split; [done|]. exists rid, code, data, CreateOrder, t0. auto 10.
    + left. destruct r0; simpl; done.
  - left. destruct (inflight s !! rid) as [[r0 t0|]|] eqn:Ek; auto.
    case_match; auto. unfold settle. destruct r0; simpl; done.
  - left. repeat case_match; done.
  - by left.
Qed.

(** X5.  Outside the callbacks of the bus, the publisher changes only when
    a login or order request is resumed with a successful, non-fallback
    downstream result while [rabbitChannel] is set; the change is the one
    publish of that route, suspended on [assertQueue] with the route's queue
    and event type.  No other request ever publishes. *)
Theorem events_published_only_for_served_logins_and_orders (s : state)
    (now : Z) (e : event) :
  (∀ e', e ≠ Bus e') →
  let s' := step now e s in
  bus s' = bus s
  ∨ ∃ rid code data r started fb queue type,
      e = DownstreamSettled rid (HttpResponse code data)
      ∧ inflight s !! rid = Some (AwaitingFire r started)
      ∧ 200 ≤ code < 300
      ∧ is_Some (Publisher.rabbitChannel (bus s))
      ∧ get_prop "fallback" data = Some fb ∧ truthy fb = false
      ∧ (r = AuthLogin ∧ queue = "auth-events" ∧ type = "USER_LOGIN"
         ∨ r = CreateOrder ∧ queue = "order-events" ∧ type = "ORDER_CREATED")
      ∧ bus s'
        = (Publisher.publishToQueue queue
             (JObj [("type", JStr type); ("timestamp", JNum now)]) (bus s)).2
      ∧ Publisher.asserting (bus s')
        = Publisher.asserting (bus s)
          ++ [(queue, JObj [("type", JStr type); ("timestamp", JNum now)])].
Proof.
  intros Hne s'. subst s'. destruct e as [req heap|rid res|rid|rid|e]; simpl.
  - left. unfold arrive. destruct (Limiter.admit_request _ _ _) as [[] st]; [|done].
    destruct (target req); simpl; try done; unfold fire;
      destruct (Breaker.permit _ _ _) as [[] b]; simpl; done.
  - destruct (inflight s !! rid) as [[r0 t0|]|] eqn:Ek; auto.
    case_match; auto. unfold settle.
    destruct (resolved res) as [data|] eqn:Hres; simpl.
    + destruct res as [code d|]; [|done]. simpl in Hres.
      destruct ((200 <=? code) && (code <? 300)) eqn:Hc; [|done].
      apply andb_true_iff in Hc as [H1%Z.leb_le H2%Z.ltb_lt]. simplify_eq.
      assert (∀ queue type,
                 let s1 := publish_and_reply now rid queue type data
                             (with_breaker
                                (Breaker.record circuitBreakerOptions now false (breaker s)) s) in
                 bus s1 = bus s
                 ∨ (is_Some (Publisher.rabbitChannel (bus s))
                    ∧ (∃ fb, get_prop "fallback" data = Some fb ∧ truthy fb = false)
                    ∧ bus s1
                      = (Publisher.publishToQueue queue
                           (JObj [("type", JStr type); ("timestamp", JNum now)])
                           (bus s)).2
                    ∧ Publisher.asserting (bus s1)
                      = Publisher.asserting (bus s)
                        ++ [(queue, JObj [("type", JStr type); ("timestamp", JNum now)])]))
        as Hpub.
      { intros queue type. unfold publish_and_reply.
        destruct (get_prop "fallback" data) as [fb|] eqn:Hfb; [|by left].
        destruct (truthy fb) eqn:Ht; simpl; [by left|].
        case_bool_decide as Hch; simpl; [|by left].
        right. split; [done|]. split; [eauto|].
        destruct Hch as [ch Hch].
        unfold fire_and_forget, Publisher.publishToQueue. rewrite Hch. done. }
      destruct r0; simpl; auto.
      * destruct (Hpub "auth-events" "USER_LOGIN") as [?|(?&(fb&?&?)&?&?)]; [by left|].
        right. exists rid, code, data, AuthLogin, t0, fb, "auth-events", "USER_LOGIN".
        split_and!; auto.
      * destruct (Hpub "order-events" "ORDER_CREATED") as [?|(?&(fb&?&?)&?&?)]; [by left|].
        right. exists rid, code, data, CreateOrder, t0, fb, "order-events", "ORDER_CREATED".
        split_and!; auto.
    + left. destruct r0; simpl; done.
  - left. destruct (inflight s !! rid) as [[r0 t0|]|] eqn:Ek; auto.
    case_match; auto. unfold settle. destruct r0; simpl; done.
  - left. repeat case_match; done.
  - by destruct (Hne e).
Qed.

Lemma events_published_only_for_served_logins_and_orders_witness :
  let s' := step 150 (DownstreamSettled 0 (HttpResponse 201 Scenario.order))
              Scenario.order_pending in
  Publisher.asserting (bus s')
  = [("order-events", JObj [("type", JStr "ORDER_CREATED"); ("timestamp", JNum 150)])]
  ∧ (bus s' = bus Scenario.order_pending
     ∨ ∃ rid code data r started fb queue type,
         DownstreamSettled 0 (HttpResponse 201 Scenario.order)
         = DownstreamSettled rid (HttpResponse code data)
         ∧ inflight Scenario.order_pending !! rid = Some (AwaitingFire r started)
         ∧ 200 ≤ code < 300
         ∧ is_Some (Publisher.rabbitChannel (bus Scenario.order_pending))
         ∧ get_prop "fallback" data = Some fb ∧ truthy fb = false
         ∧ (r = AuthLogin ∧ queue = "auth-events" ∧ type = "USER_LOGIN"
            ∨ r = CreateOrder ∧ queue = "order-events" ∧ type = "ORDER_CREATED")
         ∧ bus s'
           = (Publisher.publishToQueue queue
                (JObj [("type", JStr type); ("timestamp", JNum 150)])
                (bus Scenario.order_pending)).2
         ∧ Publisher.asserting (bus s')
           = Publisher.asserting (bus Scenario.order_pending)
             ++ [(queue, JObj [("type", JStr type); ("timestamp", JNum 150)])]).
Proof.
  intros s'. split; [vm_compute; reflexivity|].
  apply (events_published_only_for_served_logins_and_orders
           Scenario.order_pending 150
           (DownstreamSettled 0 (HttpResponse 201 Scenario.order))).
  intros e'. discriminate.
Defined.

End GatewayAccounting.

(** ** The connection, its listener and its retry timer *)

Section ConnectionExtras.
Import Publisher.

(** The channel variable and the close listener go together, and a
    connection that is listened to is open. *)
Lemma step_channel_listened (now : Z) (e : event) (s : state) :
  tokens s = 1%nat →
  rabbitChannel s = head (closeHandlers s) →
  (∀ c, c ∈ closeHandlers s → c ∈ live s) →
  rabbitChannel (step now e s) = head (closeHandlers (step now e s))
  ∧ (∀ c, c ∈ closeHandlers (step now e s) → c ∈ live (step now e s)).
Proof.
  unfold tokens. intros Htok Hch Hsub. destruct e; simpl.
  - destruct (connecting s); simpl; [done|]. split; [done|].
    intros c Hc. apply elem_of_cons. right. by apply Hsub.
  - destruct (connecting s); simpl; done.
  - case_bool_decide as Hin; simpl; [|done].
    case_bool_decide as Hlive; simpl; [|done].
    assert (closeHandlers s = []) as Hnil.
    { destruct (opening s); [by apply elem_of_nil in Hin|].
      destruct (closeHandlers s); [done|]. simpl in Htok. lia. }
    rewrite Hnil. split; [done|].
    intros x Hx. apply list_elem_of_singleton in Hx as ->. done.
  - case_bool_decide; simpl; done.
  - case_bool_decide as Hlive; simpl; [|done].
    case_bool_decide as Hin; simpl.
    + rewrite (remove_singleton c (closeHandlers s)) by (done || lia).
      split; [done|]. intros x Hx. by apply elem_of_nil in Hx.
    + rewrite remove_absent by done. split; [done|].
      intros x Hx. apply elem_of_remove. split; [by intros ->|by apply Hsub].
  - destruct (timers s) as [|due rest]; [done|]. case_match; simpl; done.
  - destruct (asserting s !! i) as [[q m]|]; [|done].
    destruct (rabbitChannel s) eqn:E; simpl; rewrite ?E; done.
  - destruct (asserting s !! i); simpl; done.
Qed.

Lemma run_channel_listened (tr : list (Z * event)) :
  rabbitChannel (run tr initial) = head (closeHandlers (run tr initial))
  ∧ (∀ c, c ∈ closeHandlers (run tr initial) → c ∈ live (run tr initial)).
Proof.
  assert (∀ s, tokens s = 1%nat →
               rabbitChannel s = head (closeHandlers s) →
               (∀ c, c ∈ closeHandlers s → c ∈ live s) →
               rabbitChannel (run tr s) = head (closeHandlers (run tr s))
               ∧ (∀ c, c ∈ closeHandlers (run tr s) → c ∈ live (run tr s)))
    as Hrun.
  { induction tr as [|[now e] tr IH]; intros s Ht Hc Hs; simpl; [done|].
    destruct (step_channel_listened now e s Ht Hc Hs) as [Hc' Hs'].
    apply IH; [by apply step_tokens|done|done]. }
  apply Hrun; [done|done|]. intros c Hc. by apply elem_of_nil in Hc.
Qed.

(** The timers pending after a failure or a close were set by it. *)
Lemma step_schedules (now : Z) (e : event) (s : state) :
  tokens s = 1%nat →
  timers (step now e s) = timers s
  ∨ (e = TimerFired ∧ timers (step now e s) = [])
  ∨ (e ≠ TimerFired ∧ timers s = [] ∧ timers (step now e s) = [now + retryDelay]).
Proof.
  unfold tokens. intros Htok. destruct e; simpl.
  - destruct (connecting s); simpl; auto.
  - destruct (connecting s) eqn:E; simpl; auto.
    right. right. destruct (timers s); [done|]. simpl in Htok. lia.
  - repeat case_match; simpl; auto.
  - case_bool_decide as Hin; simpl; auto.
    right. right. destruct (opening s); [by apply elem_of_nil in Hin|].
    destruct (timers s); [done|]. simpl in Htok. lia.
  - case_bool_decide as Hlive; simpl; auto.
    case_bool_decide as Hin; simpl; auto.
    right. right. destruct (closeHandlers s); [by apply elem_of_nil in Hin|].
    destruct (timers s); [done|]. simpl in Htok. lia.
  - destruct (timers s) as [|due rest] eqn:E; auto.
    case_match; simpl; auto. right. left. split; [done|].
    destruct rest; [done|]. simpl in Htok. lia.
  - destruct (asserting s !! i) as [[q m]|]; auto.
    destruct (rabbitChannel s); simpl; auto.
  - destruct (asserting s !! i); simpl; auto.
Qed.

End ConnectionExtras.

Section GatewayConnectionExtras.
Import Gateway.

(** X6.  Whenever [rabbitChannel] is set, the connection it was created on
    is open and is the one connection whose close the gateway listens to:
    the close listener clears the variable before anything else can use
    it. *)
Theorem channel_belongs_to_open_connection (tr : list (Z * event)) (c : nat) :
  let p := bus (run tr initial) in
  Publisher.rabbitChannel p = Some c →
  c ∈ Publisher.live p ∧ Publisher.closeHandlers p = [c].
Proof.
  intros p Hch.
  pose proof (connection_follows_bus_events tr initial) as Hv.
  pose proof (one_token tr) as Htok.
  destruct (run_channel_listened (bus_events tr)) as [Hhead Hsub].
  unfold Publisher.connection_view in Hv.
  injection Hv as Hv1 Hv2 Hv3 Hv4 Hv5 Hv6 Hv7.
  fold p in Hv1, Hv5, Hv6, Htok. unfold Publisher.tokens in Htok.
  rewrite <- Hv1, <- Hv5 in Hhead. rewrite <- Hv5, <- Hv6 in Hsub.
  rewrite Hch in Hhead.
  destruct (Publisher.closeHandlers p) as [|c' [|c'' l]] eqn:E;
    simpl in *; simplify_eq; try lia.
  split; [|done]. apply Hsub. by left.
Qed.

(** X7.  A retry is never started early: when a failed attempt or a closed
    connection schedules [connectToRabbitMQ], it is the only timer pending,
    it is due 5000 ms later, and a timer callback before that moment does
    nothing. *)
Theorem retry_waits_for_the_delay (tr : list (Z * event)) (now now' : Z)
    (e : Publisher.event) :
  let p := bus (run tr initial) in
  e ≠ Publisher.TimerFired →
  Publisher.timers (Publisher.step now e p) ≠ Publisher.timers p →
  now' < now + 5000 →
  Publisher.timers (Publisher.step now e p) = [now + 5000]
  ∧ Publisher.step now' Publisher.TimerFired (Publisher.step now e p)
    = Publisher.step now e p.
Proof.
  intros p He Hch Hlt.
  destruct (step_schedules now e p (one_token tr)) as [H|[[H _]|(_ & _ & H)]];
    [done|done|].
  unfold Publisher.retryDelay in H. split; [exact H|].
  simpl. rewrite H. destruct (Z.leb_spec (now + 5000) now'); [lia|done].
Qed.

Lemma retry_waits_for_the_delay_witness :
  Publisher.step 4999 Publisher.TimerFired
    (Publisher.step 0 Publisher.ConnectRejected (bus initial))
  = Publisher.step 0 Publisher.ConnectRejected (bus initial).
Proof.
  apply (retry_waits_for_the_delay [] 0 4999 Publisher.ConnectRejected).
  - discriminate.
  - vm_compute. discriminate.
  - lia.
Defined.

(** X8.  At every moment exactly one of these exists: a connection attempt
    under way ([amqp.connect] or [createChannel] pending), a scheduled
    retry, or a connection whose close is listened to.  In particular there
    is never more than one attempt or more than one retry timer. *)
Theorem one_attempt_retry_or_connection (tr : list (Z * event)) :
  let p := bus (run tr initial) in
  (Publisher.connecting p + length (Publisher.opening p)
   + length (Publisher.timers p) + length (Publisher.closeHandlers p) = 1)%nat.
Proof.
  intros p.
  pose proof (connection_follows_bus_events tr initial) as Hv.
  pose proof (run_tokens (bus_events tr) Publisher.initial eq_refl) as Ht.
  unfold Publisher.connection_view in Hv.
  injection Hv as Hv1 Hv2 Hv3 Hv4 Hv5 Hv6 Hv7.
  unfold Publisher.tokens in Ht. fold p in Hv2, Hv3, Hv4, Hv5.
  rewrite Hv2, Hv3, Hv4, Hv5. exact Ht.
Qed.

(** X9.  The connection state after any run is the one the callbacks of
    the bus alone produce: requests, downstream results, timeouts and
    ['finish'] events, however many and however interleaved, never connect,
    close a connection or set a timer. *)
Theorem connection_state_ignores_requests (tr : list (Z * event)) :
  let p := bus (run tr initial) in
  let q := Publisher.run (bus_events tr) Publisher.initial in
  Publisher.rabbitChannel p = Publisher.rabbitChannel q
  ∧ Publisher.connecting p = Publisher.connecting q
  ∧ Publisher.opening p = Publisher.opening q
  ∧ Publisher.timers p = Publisher.timers q
  ∧ Publisher.closeHandlers p = Publisher.closeHandlers q
  ∧ Publisher.live p = Publisher.live q.
Proof.
  intros p q.
  pose proof (connection_follows_bus_events tr initial) as Hv.
  unfold Publisher.connection_view in Hv.
  injection Hv as Hv1 Hv2 Hv3 Hv4 Hv5 Hv6 Hv7. done.
Qed.

(** X10.  As long as [createChannel] is only ever rejected on a connection
    that has closed, at most one connection to the bus is open at any time,
    whatever the requests. *)
Theorem one_open_connection_when_failures_close (tr : list (Z * event)) :
  Publisher.channel_failures_close (bus_events tr) Publisher.initial →
  (length (Publisher.live (bus (run tr initial))) ≤ 1)%nat.
Proof.
  intros Hc. apply one_live_connection in Hc.
  pose proof (connection_follows_bus_events tr initial) as Hv.
  unfold Publisher.connection_view in Hv.
  injection Hv as Hv1 Hv2 Hv3 Hv4 Hv5 Hv6 Hv7.
  rewrite Hv6. exact Hc.
Qed.

Lemma one_open_connection_when_failures_close_witness :
  Publisher.live (bus (run ExtraScenario.reconnected initial)) = [2%nat]
  ∧ (length (Publisher.live (bus (run ExtraScenario.reconnected initial))) ≤ 1)%nat.
Proof.
  split; [vm_compute; reflexivity|].
  apply (one_open_connection_when_failures_close ExtraScenario.reconnected).
  vm_compute. repeat split; apply not_elem_of_nil.
Defined.

Lemma channel_belongs_to_open_connection_witness :
  let p := bus (run ExtraScenario.reconnected initial) in
  2%nat ∈ Publisher.live p ∧ Publisher.closeHandlers p = [2%nat].
Proof.
  apply (channel_belongs_to_open_connection ExtraScenario.reconnected 2).
  vm_compute. reflexivity.
Defined.

End GatewayConnectionExtras.

(** ** The unprotected gateway *)

Section VulnerableFacts.
Import Vulnerable VulnerableScenario.

Lemma vulnerable_run_split (tr1 tr2 : list (Z * event)) (s : state) :
  run (tr1 ++ tr2) s = run tr2 (run tr1 s).
Proof.
  revert s. induction tr1 as [|[now e] tr1 IH]; intros s; simpl; [done|].
  apply IH.
Qed.

(** What a callback does to the counters of the middleware. *)
Lemma step_counters (now : Z) (e : event) (s : state) :
  let m := metrics s in
  let m' := metrics (step now e s) in
  (totalRequests m' = totalRequests m + 1
   ∧ activeConnections m' = activeConnections m + 1
   ∧ peakConnections m' = Z.max (peakConnections m) (activeConnections m + 1))
  ∨ (totalRequests m' = totalRequests m
     ∧ (activeConnections m' = activeConnections m
        ∨ activeConnections m' = activeConnections m - 1)
     ∧ peakConnections m' = peakConnections m).
Proof.
  destruct e; simpl.
  - left. unfold arrive.
    assert (peakConnections (count (metrics s))
            = Z.max (peakConnections (metrics s)) (activeConnections (metrics s) + 1))
      as Hpeak.
    { unfold count. simpl.
      destruct (Z.ltb_spec (peakConnections (metrics s))
                  (activeConnections (metrics s) + 1)); lia. }
    destruct (downstream req); simpl; [done|].
    destruct (target req); simpl; done.
  - right. repeat case_match; simpl; auto.
  - right. repeat case_match; simpl; auto.
  - right. repeat case_match; simpl; auto.
  - right. repeat case_match; simpl; auto.
  - right. repeat case_match; simpl; auto.
  - right. repeat case_match; simpl; auto.
  - right. repeat case_match; simpl; auto.
  - right. auto.
  - right. repeat case_match; simpl; auto.
  - right. auto.
Qed.

(** X11.  In the unprotected gateway [peakConnections] is a high-water
    mark: it is never below [activeConnections], never above
    [totalRequests], and it never goes down. *)
Theorem peak_bounds_active (tr1 tr2 : list (Z * event)) :
  let m := metrics (run tr1 initial) in
  activeConnections m ≤ peakConnections m
  ∧ peakConnections m ≤ totalRequests m
  ∧ peakConnections m ≤ peakConnections (metrics (run (tr1 ++ tr2) initial)).
Proof.
  assert (∀ tr s,
            activeConnections (metrics s) ≤ peakConnections (metrics s) →
            peakConnections (metrics s) ≤ totalRequests (metrics s) →
            activeConnections (metrics (run tr s)) ≤ peakConnections (metrics (run tr s))
            ∧ peakConnections (metrics (run tr s)) ≤ totalRequests (metrics (run tr s))
            ∧ peakConnections (metrics s) ≤ peakConnections (metrics (run tr s)))
    as Hrun.
  { induction tr as [|[now e] tr IH]; intros s H1 H2; simpl; [lia|].
    pose proof (step_counters now e s) as Hstep. simpl in Hstep.
    destruct (IH (step now e s)) as (H3 & H4 & H5); lia. }
  intros m. destruct (Hrun tr1 initial) as (H1 & H2 & _); [done|done|].
  rewrite vulnerable_run_split.
  destruct (Hrun tr2 (run tr1 initial)) as (_ & _ & H3); done.
Qed.

(** One more order request brings one more open connection. *)
Lemma order_connected_adds (s : state) :
  let s' := run (order_connected (nextRequest s)) s in
  live s' = nextConnection s :: live s
  ∧ rabbitConnections (metrics s') = rabbitConnections (metrics s) + 1
  ∧ nextRequest s' = S (nextRequest s)
  ∧ cleanups s' = cleanups s.
Proof.
  simpl. unfold arrive. simpl. rewrite lookup_insert_eq. simpl.
  unfold suspend. simpl. rewrite lookup_insert_eq. simpl. done.
Qed.

Lemma flood_adds (n : nat) (s : state) :
  let s' := run (flood n (nextRequest s)) s in
  length (live s') = (n + length (live s))%nat
  ∧ rabbitConnections (metrics s') = rabbitConnections (metrics s) + Z.of_nat n
  ∧ cleanups s' = cleanups s.
Proof.
  revert s. induction n as [|n IH]; intros s; cbv zeta;
    [simpl; split_and!; [done|lia|done]|].
  cbn [flood]. rewrite vulnerable_run_split.
  destruct (order_connected_adds s) as (H1 & H2 & H3 & H4).
  specialize (IH (run (order_connected (nextRequest s)) s)).
  cbv zeta in IH, H1, H2, H3, H4.
  rewrite H3 in IH. destruct IH as (I1 & I2 & I3).
  rewrite I1, I2, I3, H1, H2, H4. simpl. split_and!; [lia|lia|done].
Qed.

(** X12.  The unprotected gateway opens one connection per publishing
    request: after [n] order requests have each reached [publishToQueue] and
    been accepted by the broker, [n] connections are open at once,
    [rabbitConnections] is [n], and no cleanup has been scheduled yet.  There
    is no bound. *)
Theorem connections_grow_with_requests (n : nat) :
  let s := run (flood n 0) initial in
  length (live s) = n
  ∧ rabbitConnections (metrics s) = Z.of_nat n
  ∧ cleanups s = ∅.
Proof.
  destruct (flood_adds n initial) as (H1 & H2 & H3). simpl in *.
  split_and!; [lia|lia|done].
Qed.

(** X13.  In the unprotected gateway a failed publish fails the request:
    when the downstream call of a login, register or order request has
    succeeded and [amqp.connect] is then rejected, the client is answered
    500 with the route's "service unavailable" error instead of the
    downstream result, and [failedRequests] goes up by one. *)
Theorem failed_publish_fails_the_request (s : state) (now now' : Z) (rid : nat)
    (r : route) (body data : json) (iso msg : string) :
  inflight s !! rid = Some (AwaitingDownstream r body) →
  publishes r = true →
  let s1 := step now (DownstreamSettled rid (Resolved data) iso) s in
  let s2 := step now' (ConnectSettled rid (Failed msg)) s1 in
  responses s1 = responses s
  ∧ responses s2 !! rid = Some (failureResponse r (mkFailure None msg))
  ∧ status (failureResponse r (mkFailure None msg)) = 500
  ∧ failedRequests (metrics s2) = failedRequests (metrics s) + 1.
Proof.
  intros Hin Hr s1 s2. subst s1 s2.
  destruct r; try discriminate Hr; simpl; rewrite Hin; simpl;
    unfold suspend; simpl; rewrite !lookup_insert_eq; simpl;
    rewrite ?lookup_insert_eq; done.
Qed.

Lemma failed_publish_fails_the_request_witness :
  let s1 := step 150 (DownstreamSettled 0 (Resolved Scenario.order)
                        "2024-01-01T00:00:00.150Z") order_waiting in
  let s2 := step 160 (ConnectSettled 0 (Failed "connect ECONNREFUSED")) s1 in
  responses s2 !! 0%nat
  = Some (mkResponse 500 (JObj [("error", JStr "Order service unavailable")])).
Proof.
  intros s1 s2.
  destruct (failed_publish_fails_the_request order_waiting 150 160 0%nat
              CreateOrder (payload order_request) Scenario.order
              "2024-01-01T00:00:00.150Z" "connect ECONNREFUSED")
    as (_ & H & _).
  - vm_compute. reflexivity.
  - reflexivity.
  - exact H.
Defined.

(** A connection that is open has been counted. *)
Lemma step_counted (now : Z) (e : event) (s : state) :
  Z.of_nat (length (live s)) ≤ rabbitConnections (metrics s) →
  Z.of_nat (length (live (step now e s))) ≤ rabbitConnections (metrics (step now e s)).
Proof.
  intros H. destruct e; simpl.
  - unfold arrive. destruct (downstream req); simpl; [done|].
    destruct (target req); simpl; done.
  - repeat case_match; simpl; done.
  - repeat case_match; simpl; try done. lia.
  - repeat case_match; simpl; done.
  - repeat case_match; simpl; done.
  - repeat case_match; simpl; done.
  - repeat case_match; simpl; done.
  - destruct (cleanups s !! c) as [[| |]|]; try done.
    destruct p; simpl; [|done].
    case_bool_decide as Hin; simpl; [|done].
    assert (length (Publisher.remove c (live s)) < length (live s))%nat
      by (apply (length_filter_lt _ _ c); [done|by intros Hc]).
    lia.
  - assert (length (Publisher.remove c (live s)) ≤ length (live s))%nat
      by apply length_filter.
    lia.
  - repeat case_match; simpl; done.
  - done.
Qed.

(** X14.  [rabbitConnections] never under-reports: at every moment it is
    at least the number of connections that are open. *)
Theorem rabbit_connections_never_under_report (tr : list (Z * event)) :
  let s := run tr initial in
  Z.of_nat (length (live s)) ≤ rabbitConnections (metrics s).
Proof.
  assert (∀ s, Z.of_nat (length (live s)) ≤ rabbitConnections (metrics s) →
               Z.of_nat (length (live (run tr s)))
               ≤ rabbitConnections (metrics (run tr s))) as Hrun.
  { induction tr as [|[now e] tr IH]; intros s Hs; simpl; [done|].
    by apply IH, step_counted. }
  apply Hrun. simpl. lia.
Qed.

(** X15.  A publish that fails after it has connected leaks its
    connection: when [createChannel] or [assertQueue] is rejected the request
    is answered with the route's error, and the connection stays open and
    counted with no cleanup scheduled for it. *)
Theorem failed_publish_leaks_connection (s : state) (now : Z) (rid : nat)
    (r : route) (data : json) (queue : string) (event : json) (c : nat)
    (e : Vulnerable.event) (msg : string) :
  (inflight s !! rid = Some (AwaitingChannel r data queue event c)
   ∧ e = ChannelSettled rid (Failed msg))
  ∨ (inflight s !! rid = Some (AwaitingAssert r data queue event c)
     ∧ e = AssertSettled rid (Failed msg)) →
  let s' := step now e s in
  responses s' !! rid = Some (failureResponse r (mkFailure None msg))
  ∧ live s' = live s
  ∧ cleanups s' = cleanups s
  ∧ rabbitConnections (metrics s') = rabbitConnections (metrics s).
Proof.
  intros [[Hin ->] | [Hin ->]]; simpl; rewrite Hin; simpl;
    rewrite lookup_insert_eq; done.
Qed.

Lemma failed_publish_leaks_connection_witness :
  let s := run (order_connected 0) initial in
  let s' := step 9 (ChannelSettled 0 (Failed "Channel closed")) s in
  responses s' !! 0%nat
  = Some (mkResponse 500 (JObj [("error", JStr "Order service unavailable")]))
  ∧ live s' = [0%nat]
  ∧ cleanups s' = ∅.
Proof.
  intros s s'.
  destruct (failed_publish_leaks_connection s 9 0%nat CreateOrder Scenario.order
              "order-events"
              (JObj [("type", JStr "ORDER_CREATED");
                     ("timestamp", JStr "2024-01-01T00:00:00.001Z");
                     ("data", Scenario.order)])
              0%nat (ChannelSettled 0 (Failed "Channel closed")) "Channel closed")
    as (H1 & H2 & H3 & _).
  - left. split; [vm_compute; reflexivity|reflexivity].
  - split; [exact H1|]. split; [etrans; [exact H2|]|etrans; [exact H3|]];
      vm_compute; reflexivity.
Defined.

End VulnerableFacts.

(** ** The order service *)

Section OrderServiceFacts.
Import OrderService.

Lemma order_run_app (tr1 tr2 : list event) (s : state) :
  run (tr1 ++ tr2) s = run tr2 (run tr1 s).
Proof. unfold run. apply foldl_app. Qed.

Lemma truthy_js_or (a b : json) : truthy b = true → truthy (js_or a b) = true.
Proof. intros Hb. unfold js_or. by destruct (truthy a) eqn:Ha. Qed.

(** What a callback does to the order list: nothing, or one order at the
    end with the next identifier and no falsy field. *)
Lemma step_orders (e : event) (s : state) :
  (orders (step e s) = orders s ∧ orderIdCounter (step e s) = orderIdCounter s
   ∧ ordersCreated (metrics (step e s)) = ordersCreated (metrics s))
  ∨ ∃ o, orders (step e s) = orders s ++ [o]
         ∧ id o = orderIdCounter s
         ∧ orderIdCounter (step e s) = orderIdCounter s + 1
         ∧ ordersCreated (metrics (step e s)) = ordersCreated (metrics s) + 1
         ∧ truthy (product o) = true ∧ truthy (quantity o) = true
         ∧ truthy (userId o) = true.
Proof.
  destruct e as [req|rid iso]; simpl.
  - left. destruct req; simpl; try done. repeat case_match; done.
  - destruct (timers s !! rid) as [body|]; [|by left].
    right. eexists. simpl. split_and!; try done; by apply truthy_js_or.
Qed.

(** X16.  Order identifiers are handed out consecutively from 1 in the
    order in which the orders are created: the list holds the identifiers
    1, 2, ..., n, [orderIdCounter] is n + 1 and [ordersCreated] is n.  No two
    orders share an identifier. *)
Theorem order_ids_are_consecutive (tr : list event) :
  let s := run tr initial in
  id <$> orders s = (λ k : nat, Z.of_nat k + 1) <$> seq 0 (length (orders s))
  ∧ orderIdCounter s = Z.of_nat (length (orders s)) + 1
  ∧ ordersCreated (metrics s) = Z.of_nat (length (orders s)).
Proof.
  induction tr as [|e tr IH] using rev_ind; [done|].
  rewrite order_run_app. simpl in *.
  destruct IH as (I1 & I2 & I3).
  destruct (step_orders e (run tr initial)) as [(H1 & H2 & H3)|(o & H1 & H2 & H3 & H4 & _)].
  - rewrite H1, H2, H3. done.
  - rewrite H1, H3, H4, length_app, fmap_app, I1. simpl.
    rewrite Nat.add_1_r, seq_S, fmap_app. simpl.
    rewrite H2, I2, I3. split_and!; [done|lia|lia].
Qed.

Lemma find_by_consecutive_id (l : list order) (b k : Z) :
  id <$> l = (λ i : nat, b + Z.of_nat i + 1) <$> seq 0 (length l) →
  List.find (λ o, id o =? k) l
  = (if b + 1 <=? k then l !! Z.to_nat (k - b - 1) else None).
Proof.
  revert b. induction l as [|o l IH]; intros b Hids.
  { simpl. by case_match. }
  cbn [length] in Hids. rewrite <- cons_seq, !fmap_cons in Hids.
  injection Hids as Ho Hl. simpl.
  destruct (Z.eqb_spec (id o) k) as [Hk|Hk].
  - destruct (Z.leb_spec (b + 1) k); [|lia].
    replace (k - b - 1) with 0 by lia. done.
  - rewrite (IH (b + 1)).
    + destruct (Z.leb_spec (b + 1 + 1) k), (Z.leb_spec (b + 1) k); try lia; [|done].
      replace (Z.to_nat (k - b - 1)) with (S (Z.to_nat (k - (b + 1) - 1))) by lia.
      done.
    + rewrite Hl, <- (fmap_S_seq 0), <- list_fmap_compose.
      apply list_fmap_ext. intros i x _. simpl. lia.
Qed.

(** X17.  GET /orders/:id answers 200 with the k-th order created when the
    parameter parses to k between 1 and the number of orders, and 404 "Order
    not found" otherwise (also when the parameter does not parse). *)
Theorem get_order_returns_the_order_created_with_that_id (tr : list event)
    (parsed : option Z) :
  let s := run tr initial in
  let s' := step (Arrive (GetOrder parsed)) s in
  responses s' !! nextRequest s
  = Some (match parsed with
          | Some k =>
              match (if 1 <=? k then orders s !! Z.to_nat (k - 1) else None) with
              | Some o => mkResponse 200 (order_json o)
              | None => mkResponse 404 (JObj [("error", JStr "Order not found")])
              end
          | None => mkResponse 404 (JObj [("error", JStr "Order not found")])
          end).
Proof.
  intros s s'. subst s'. simpl.
  destruct parsed as [k|]; simpl; [|by rewrite lookup_insert_eq].
  destruct (order_ids_are_consecutive tr) as (Hids & _ & _). fold s in Hids.
  rewrite (find_by_consecutive_id (orders s) 0 k).
  - replace (k - 0 - 1) with (k - 1) by lia.
    change (0 + 1) with 1.
    destruct (if 1 <=? k then orders s !! Z.to_nat (k - 1) else None);
      simpl; by rewrite lookup_insert_eq.
  - rewrite Hids. apply list_fmap_ext. intros i x _. simpl. lia.
Qed.

(** X18.  Orders are only ever added at the end of the list: what has been
    created stays, unchanged and in place, whatever requests follow. *)
Theorem orders_are_kept (tr1 tr2 : list event) :
  orders (run tr1 initial) `prefix_of` orders (run (tr1 ++ tr2) initial).
Proof.
  rewrite order_run_app. generalize (run tr1 initial). intros s.
  induction tr2 as [|e tr2 IH] using rev_ind; [done|].
  rewrite order_run_app. simpl. etrans; [exact IH|].
  destruct (step_orders e (run tr2 s)) as [(H1 & _)|(o & H1 & _)]; rewrite H1.
  - done.
  - by apply prefix_app_r.
Qed.

(** X19.  No stored order has a falsy product, quantity or user: a
    missing, empty or zero field is replaced by its default when the order
    is created (a quantity of 0 is stored as 1). *)
Theorem stored_orders_have_no_falsy_field (tr : list event) :
  Forall (λ o, truthy (product o) = true ∧ truthy (quantity o) = true
               ∧ truthy (userId o) = true)
    (orders (run tr initial)).
Proof.
  induction tr as [|e tr IH] using rev_ind; [by constructor|].
  rewrite order_run_app. simpl.
  destruct (step_orders e (run tr initial)) as [(H1 & _)|(o & H1 & _ & _ & _ & Ho)];
    rewrite H1; [done|].
  apply Forall_app. split; [done|]. by constructor.
Qed.

End OrderServiceFacts.

(** ** The auth service *)

Section AuthServiceFacts.
Import AuthService.

Lemma auth_run_app (tr1 tr2 : list (Z * event)) (s : state) :
  run (tr1 ++ tr2) s = run tr2 (run tr1 s).
Proof.
  revert s. induction tr1 as [|[now e] tr1 IH]; intros s; simpl; [done|].
  apply IH.
Qed.

Lemma strict_equal_sym (a b : json) : strict_equal a b = strict_equal b a.
Proof.
  destruct a, b; simpl; try done.
  - by destruct b, b0.
  - apply Z.eqb_sym.
  - apply String.eqb_sym.
Qed.

Lemma strict_equal_eq (a b : json) : strict_equal a b = true → a = b.
Proof.
  destruct a, b; simpl; try done.
  - by intros ->%Bool.eqb_prop.
  - by intros ->%Z.eqb_eq.
  - by intros ->%String.eqb_eq.
Qed.

(** [users.set] on a key that is absent leaves every other key as it was
    and, for a primitive key, makes it present. *)
Lemma get_set_absent (k k' : json) (u : user) (m : list (json * user)) :
  get k m = None →
  get k' (set k u m)
  = (if strict_equal k k' then Some u else get k' m)
  ∧ length (set k u m) = S (length m).
Proof.
  induction m as [|[k0 u0] m IH]; simpl; [done|].
  destruct (strict_equal k0 k) eqn:E0; [done|]. intros Hk.
  destruct (IH Hk) as [IH1 IH2]. simpl. rewrite IH1, IH2.
  split; [|done].
  destruct (strict_equal k0 k') eqn:E1; [|done].
  destruct (strict_equal k k') eqn:E2; [|done].
  pose proof E1 as E1'. apply strict_equal_eq in E1, E2. subst. congruence.
Qed.

(** No callback changes or removes an account. *)
Lemma step_keeps_accounts (now : Z) (e : event) (s : state) (k : json) (u : user) :
  get k (users s) = Some u → get k (users (step now e s)) = Some u.
Proof.
  intros Hk. destruct e as [[|body|body]|rid text]; simpl; try done.
  - destruct (get (field "username" body) (users s)) eqn:Hg; simpl; [done|].
    destruct (get_set_absent (field "username" body) k
                (mkUser (field "password" body) "user") (users s) Hg) as [-> _].
    destruct (strict_equal (field "username" body) k) eqn:E; [|done].
    apply strict_equal_eq in E. congruence.
  - destruct (timers s !! rid) as [[username pass]|]; [|done].
    unfold check. by destruct (matches username pass (users s)).
Qed.

Lemma run_keeps_accounts (tr : list (Z * event)) (s : state) (k : json) (u : user) :
  get k (users s) = Some u → get k (users (run tr s)) = Some u.
Proof.
  revert s. induction tr as [|[now e] tr IH]; intros s Hk; simpl; [done|].
  by apply IH, step_keeps_accounts.
Qed.

(** X20.  An account, once in the [users] map, is permanent: no request
    changes its password or role or removes it; registering the name again
    is refused. *)
Theorem accounts_are_permanent (tr1 tr2 : list (Z * event)) (k : json) (u : user) :
  get k (users (run tr1 initial)) = Some u →
  get k (users (run (tr1 ++ tr2) initial)) = Some u.
Proof. rewrite auth_run_app. apply run_keeps_accounts. Qed.

(** X21.  Registering a free name that is a string, with a password that
    is not a number, is answered 200, and from then on, whatever requests
    with primitive names come in between, a login under that name is
    granted, with role "user" and the token made of the name and the clock,
    exactly when its password is strictly equal to the one registered, and
    answered 401 otherwise. *)
Theorem registered_credentials_log_in (tr1 tr2 : list (Z * event)) (body : json)
    (name text : string) (now now' : Z) (rid : nat) (pass : json) :
  let s := run tr1 initial in
  let s1 := step now (Arrive (Register body)) s in
  let s2 := run tr2 s1 in
  field "username" body = JStr name →
  is_number (field "password" body) = false →
  forallb (λ te, renders te.2) (tr1 ++ tr2) = true →
  valid_time now' = true →
  get (JStr name) (users s) = None →
  timers s2 !! rid = Some (JStr name, pass) →
  responses s1 !! nextRequest s
  = Some (mkResponse 200
            (JObj [("success", JBool true);
                   ("message", JStr "User registered successfully")]))
  ∧ responses (step now' (TimerFired rid text) s2) !! rid
    = Some (if strict_equal (field "password" body) pass
            then granted (JStr name) (mkUser (field "password" body) "user")
                   ("token_" +:+ name +:+ "_" +:+ pretty now')
            else denied).
Proof.
  intros s s1 s2 Hname _ _ _ Hfree Htimer.
  assert (responses s1 !! nextRequest s
          = Some (mkResponse 200
                    (JObj [("success", JBool true);
                           ("message", JStr "User registered successfully")]))
          ∧ get (JStr name) (users s1)
            = Some (mkUser (field "password" body) "user")) as [Hresp H1].
  { subst s1. simpl. rewrite Hname, Hfree. simpl.
    rewrite lookup_insert_eq. split; [done|].
    destruct (get_set_absent (JStr name) (JStr name)
                (mkUser (field "password" body) "user") (users s) Hfree)
      as [-> _].
    simpl. by rewrite String.eqb_refl. }
  split; [exact Hresp|].
  apply (run_keeps_accounts tr2) in H1. fold s2 in H1.
  simpl. rewrite Htimer. unfold check, matches. rewrite H1. simpl.
  destruct (strict_equal (field "password" body) pass); simpl;
    by rewrite lookup_insert_eq.
Qed.

(** The books of the login counters. *)
Lemma step_login_counters (now : Z) (e : event) (s : state) :
  (∀ rid, (nextRequest s ≤ rid)%nat → timers s !! rid = None) →
  loginAttempts (metrics s)
  = successfulLogins (metrics s) + failedLogins (metrics s)
    + Z.of_nat (size (timers s)) →
  Z.of_nat (length (users s)) = 2 + registrations (metrics s) →
  (∀ rid, (nextRequest (step now e s) ≤ rid)%nat → timers (step now e s) !! rid = None)
  ∧ loginAttempts (metrics (step now e s))
    = successfulLogins (metrics (step now e s)) + failedLogins (metrics (step now e s))
      + Z.of_nat (size (timers (step now e s)))
  ∧ Z.of_nat (length (users (step now e s))) = 2 + registrations (metrics (step now e s)).
Proof.
  intros Hfresh Hcount Hreg. destruct e as [[|body|body]|rid text]; simpl.
  - split_and!; [|done|done]. intros rid Hrid. apply Hfresh. lia.
  - split_and!; [| |done].
    + intros rid Hrid. rewrite lookup_insert_ne by lia. apply Hfresh. lia.
    + rewrite map_size_insert_None by (apply Hfresh; lia). lia.
  - destruct (get (field "username" body) (users s)) eqn:Hg; simpl.
    + split_and!; [|done|done]. intros rid Hrid. apply Hfresh. lia.
    + split_and!; [|done|]; [intros rid Hrid; apply Hfresh; lia|].
      destruct (get_set_absent (field "username" body) JNull
                  (mkUser (field "password" body) "user") (users s) Hg) as [_ ->].
      lia.
  - destruct (timers s !! rid) as [[username pass]|] eqn:Ht; [|done].
    assert (0 < size (timers s))%nat as Hpos.
    { destruct (decide (size (timers s) = 0%nat)) as [H0|]; [|lia].
      apply map_size_empty_inv in H0. rewrite H0, lookup_empty in Ht. done. }
    unfold check. destruct (matches username pass (users s)); simpl;
      (split_and!; [|erewrite map_size_delete_Some by done; lia|done]);
      intros k Hk; rewrite lookup_delete; case_decide; [done|by apply Hfresh|done|by apply Hfresh].
Qed.

(** X22.  The counters of the auth service add up: every login attempt is
    either still waiting for its timer or counted exactly once as successful
    or failed, and [registrations] is the number of accounts added to the
    two built-in ones. *)
Theorem login_attempts_are_accounted_for (tr : list (Z * event)) :
  let s := run tr initial in
  loginAttempts (metrics s)
  = successfulLogins (metrics s) + failedLogins (metrics s)
    + Z.of_nat (size (timers s))
  ∧ Z.of_nat (length (users s)) = 2 + registrations (metrics s).
Proof.
  assert (∀ s,
            (∀ rid, (nextRequest s ≤ rid)%nat → timers s !! rid = None) →
            loginAttempts (metrics s)
            = successfulLogins (metrics s) + failedLogins (metrics s)
              + Z.of_nat (size (timers s)) →
            Z.of_nat (length (users s)) = 2 + registrations (metrics s) →
            loginAttempts (metrics (run tr s))
            = successfulLogins (metrics (run tr s)) + failedLogins (metrics (run tr s))
              + Z.of_nat (size (timers (run tr s)))
            ∧ Z.of_nat (length (users (run tr s)))
              = 2 + registrations (metrics (run tr s))) as Hrun.
  { induction tr as [|[now e] tr IH]; intros s H1 H2 H3; simpl; [done|].
    destruct (step_login_counters now e s H1 H2 H3) as (H1' & H2' & H3').
    by apply IH. }
  apply Hrun; simpl; [intros; apply lookup_empty|done|done].
Qed.

Lemma accounts_are_permanent_witness :
  get (JStr "admin")
    (users (run ([] ++ [(0, Arrive (Register
                   (JObj [("username", JStr "admin"); ("password", JStr "x")])))])
              initial))
  = Some (mkUser (JStr "admin123") "admin").
Proof.
  apply (accounts_are_permanent []
           [(0, Arrive (Register
                  (JObj [("username", JStr "admin"); ("password", JStr "x")])))]).
  reflexivity.
Defined.

Lemma registered_credentials_log_in_witness :
  let body := JObj [("username", JStr "bob"); ("password", JStr "s3cret")] in
  let s1 := step 0 (Arrive (Register body)) (run [] initial) in
  let s2 := run [(5, Arrive (Login body))] s1 in
  responses (step 90 (TimerFired 1 "bob") s2) !! 1%nat
  = Some (granted (JStr "bob") (mkUser (JStr "s3cret") "user") "token_bob_90").
Proof.
  intros body s1 s2.
  destruct (registered_credentials_log_in [] [(5, Arrive (Login body))] body
              "bob" "bob" 0 90 1%nat (JStr "s3cret")) as [_ H].
  - reflexivity.
  - reflexivity.
  - reflexivity.
  - reflexivity.
  - reflexivity.
  - vm_compute. reflexivity.
  - exact H.
Defined.

End AuthServiceFacts.
